(** * The coordinator of actor-model/reddit.go

    A shallow embedding of [EngineActor] and of its message handler
    [Receive], followed by the properties of the handler.

    Conventions of the embedding.
    - Go's [int] is taken as the 64-bit signed integer of the usual targets;
      a value is a [Z] and [x++] is [incr], which wraps at [2^63].
    - [map[K]V] is a [gmap K V].  Every [*User], [*Subreddit] and [*Post]
      of the program is reachable through exactly one map entry or slice
      slot, so the pointed-to structs are stored by value.
    - [sync.Mutex] serialises the handler; one call of [Receive] is one
      atomic step here.
    - A message's [Reply] channel receives exactly one string on every path
      that does not panic; the sent string is the second component of
      [Replied].
    - [range] over a Go map visits the entries in an unspecified order.  The
      two loops that range over [state.subreddits] take the order of the
      visit as an argument [ord]; [range_order] says when a list of keys is
      an order the runtime may choose. *)

From Stdlib Require Import Ascii.
From stdpp Require Import gmap strings list fin_maps pretty.

Open Scope Z_scope.

(** ** Go's [int] *)

Definition int_min : Z := - 2 ^ 63.
Definition int_max : Z := 2 ^ 63 - 1.

(** Reduction of an integer to its two's complement 64-bit value. *)
Definition wrap (z : Z) : Z := (z + 2 ^ 63) `mod` 2 ^ 64 - 2 ^ 63.

(** [x++] *)
Definition incr (x : Z) : Z := wrap (x + 1).

(** [len(s)] of a slice *)
Definition len {A} (l : list A) : Z := Z.of_nat (length l).

(** ** Strings and [fmt.Sprintf] *)

(** The byte written [\033] in the source. *)
Definition ESC : string := String "027"%char "".
(** The byte written [\n] in the source. *)
Definition NL : string := String "010"%char "".

Definition green (body : string) : string := ESC +:+ "[1;32m" +:+ body +:+ ESC +:+ "[0m".
Definition red (body : string) : string := ESC +:+ "[1;31m" +:+ body +:+ ESC +:+ "[0m".

(** The verb [%d] applied to an [int]. *)
Definition fmt_d (n : Z) : string := pretty n.

(** [strings.Join(elems, sep)] *)
Fixpoint Join (elems : list string) (sep : string) : string :=
  match elems with
  | [] => ""
  | [e] => e
  | e :: rest => e +:+ sep +:+ Join rest sep
  end.

(** ** Actor state *)

Record User := mkUser {
  User_ID : Z;
  User_Username : string;
  User_Inbox : list string
}.

Record Post := mkPost {
  Post_ID : Z;
  Post_UserID : Z;
  Post_Subreddit : string;
  Post_Content : string;
  Post_Comments : list string
}.

Record Subreddit := mkSubreddit {
  Subreddit_Name : string;
  Subreddit_Users : gmap Z bool;
  Subreddit_Posts : list Post
}.

Record EngineActor := mkEngineActor {
  users : gmap Z User;
  subreddits : gmap string Subreddit;
  nextUserID : Z;
  nextPostID : Z
}.

(** Field assignments. *)
Definition set_Inbox (inbox : list string) (u : User) : User :=
  mkUser (User_ID u) (User_Username u) inbox.
Definition set_Comments (cs : list string) (p : Post) : Post :=
  mkPost (Post_ID p) (Post_UserID p) (Post_Subreddit p) (Post_Content p) cs.
Definition set_Users (m : gmap Z bool) (sr : Subreddit) : Subreddit :=
  mkSubreddit (Subreddit_Name sr) m (Subreddit_Posts sr).
Definition set_Posts (ps : list Post) (sr : Subreddit) : Subreddit :=
  mkSubreddit (Subreddit_Name sr) (Subreddit_Users sr) ps.
Definition set_users (m : gmap Z User) (st : EngineActor) : EngineActor :=
  mkEngineActor m (subreddits st) (nextUserID st) (nextPostID st).
Definition set_subreddits (m : gmap string Subreddit) (st : EngineActor) : EngineActor :=
  mkEngineActor (users st) m (nextUserID st) (nextPostID st).
Definition set_nextUserID (n : Z) (st : EngineActor) : EngineActor :=
  mkEngineActor (users st) (subreddits st) n (nextPostID st).
Definition set_nextPostID (n : Z) (st : EngineActor) : EngineActor :=
  mkEngineActor (users st) (subreddits st) (nextUserID st) n.

(** The state [main] builds: two empty maps and zeroed counters. *)
Definition initial : EngineActor := mkEngineActor ∅ ∅ 0 0.

(** [subreddit.Users[id]]: a missing key reads as [false]. *)
Definition is_member (sr : Subreddit) (id : Z) : bool :=
  default false (Subreddit_Users sr !! id).

(** ** Messages (without their reply channel) *)

Inductive Msg :=
  | RegisterUser (Username : string)
  | CreateSubreddit (UserID : Z) (Subreddit : string)
  | JoinSubreddit (UserID : Z) (Subreddit : string)
  | LeaveSubreddit (UserID : Z) (Subreddit : string)
  | CreatePost (UserID : Z) (Subreddit : string) (Content : string)
  | CommentOnPost (PostID : Z) (UserID : Z) (Content : string)
  | ReplyToComment (PostID : Z) (CommentID : Z) (UserID : Z) (Content : string)
  | LikePost (PostID : Z) (UserID : Z)
  | DislikePost (PostID : Z) (UserID : Z)
  | SendMessage (SenderID : Z) (ReceiverID : Z) (Content : string)
  | ReplyToMessage (SenderID : Z) (ReceiverID : Z) (Content : string)
  | ViewInbox (UserID : Z).

(** What one call of [Receive] does: it sends one reply and leaves a state,
    or it panics on a nil pointer before any reply is sent. *)
Inductive Outcome :=
  | Replied (st : EngineActor) (reply : string)
  | NilDereference.

(** Result of a search loop that may return from inside its body. *)
Inductive Scan (A : Type) :=
  | Hit (a : A)
  | Miss
  | Fault.
Arguments Hit {A} a.
Arguments Miss {A}.
Arguments Fault {A}.

Definition scan_map {A B} (f : A → B) (s : Scan A) : Scan B :=
  match s with
  | Hit a => Hit (f a)
  | Miss => Miss
  | Fault => Fault
  end.

(** ** The handler *)

Definition getUsername (state : EngineActor) (userID : Z) : string :=
  match users state !! userID with
  | Some user => User_Username user
  | None => "User" +:+ fmt_d userID
  end.

(** The strings the handler formats. *)
Definition comment_line (name content : string) : string :=
  "User '" +:+ name +:+ "': " +:+ content.
Definition reply_line (name content : string) : string :=
  NL +:+ "Reply by '" +:+ name +:+ "': " +:+ content.
Definition message_line (name content : string) : string :=
  "Message from '" +:+ name +:+ "': " +:+ content.
Definition message_reply_line (name content : string) : string :=
  "Reply from '" +:+ name +:+ "': " +:+ content.

Definition registered_reply (name : string) (id : Z) : string :=
  green ("User '" +:+ name +:+ "' registered successfully with ID " +:+ fmt_d id +:+ ".").
Definition already_exists_reply (sr : string) : string :=
  green ("Subreddit '" +:+ sr +:+ "' already exists.").
Definition created_reply (sr : string) : string :=
  green ("Subreddit '" +:+ sr +:+ "' created successfully.").
Definition joined_reply (name sr : string) : string :=
  green ("User '" +:+ name +:+ "' joined subreddit '" +:+ sr +:+ "'.").
Definition left_reply (name sr : string) : string :=
  green ("User '" +:+ name +:+ "' left subreddit '" +:+ sr +:+ "'.").
Definition no_subreddit_reply (sr : string) : string :=
  red ("Subreddit '" +:+ sr +:+ "' does not exist.").
Definition posted_reply (name sr content : string) : string :=
  green ("User '" +:+ name +:+ "' posted in '" +:+ sr +:+ "': " +:+ content).
Definition commented_reply (name : string) (pid : Z) (content : string) : string :=
  green ("User '" +:+ name +:+ "' commented on post " +:+ fmt_d pid +:+ ": " +:+ content).
(** The format has a [%d] and the call passes no operand for it. *)
Definition no_post_reply : string :=
  red "Post ID '%!d(MISSING)' not found.".
Definition replied_reply (name : string) (cid pid : Z) (content : string) : string :=
  green ("User '" +:+ name +:+ "' replied to comment " +:+ fmt_d cid +:+
         " on post " +:+ fmt_d pid +:+ ": " +:+ content).
Definition no_comment_reply : string :=
  red "Comment or Post not found.".
Definition liked_reply (name : string) (pid : Z) : string :=
  green ("User '" +:+ name +:+ "' liked post " +:+ fmt_d pid +:+ ".").
Definition disliked_reply (name : string) (pid : Z) : string :=
  green ("User '" +:+ name +:+ "' disliked post " +:+ fmt_d pid +:+ ".").
Definition message_sent_reply (name : string) : string :=
  green ("Message sent to User '" +:+ name +:+ "'.").
Definition reply_sent_reply (name : string) : string :=
  green ("Reply sent to User '" +:+ name +:+ "'.").
Definition no_user_reply (id : Z) : string :=
  red ("User with ID " +:+ fmt_d id +:+ " does not exist.").
Definition inbox_empty_reply : string :=
  green "Inbox is empty.".
Definition inbox_reply (inboxContent : string) : string :=
  green ("Inbox:" +:+ NL +:+ inboxContent).

(** Inner loop of the [CommentOnPost] case: the first post of the slice
    whose ID matches gets the line appended. *)
Fixpoint comment_posts (pid : Z) (line : string) (posts : list Post) : Scan (list Post) :=
  match posts with
  | [] => Miss
  | post :: rest =>
      if decide (Post_ID post = pid)
      then Hit (set_Comments (Post_Comments post ++ [line]) post :: rest)
      else scan_map (cons post) (comment_posts pid line rest)
  end.

(** Inner loop of the [ReplyToComment] case.  A post with the right ID and
    an index out of range does not stop the search.  [state.users[id]] is
    nil for an unregistered id, and reading [.Username] through it
    panics before the comment is assigned. *)
Fixpoint reply_posts (us : gmap Z User) (pid cid uid : Z) (content : string)
    (posts : list Post) : Scan (list Post) :=
  match posts with
  | [] => Miss
  | post :: rest =>
      if bool_decide (Post_ID post = pid)
         && bool_decide (cid >= 1) && bool_decide (cid <= len (Post_Comments post))
      then
        let commentIndex := cid - 1 in
        match us !! uid with
        | None => Fault
        | Some user =>
            Hit (set_Comments
                   (alter (λ c, c +:+ reply_line (User_Username user) content)
                          (Z.to_nat commentIndex) (Post_Comments post))
                   post :: rest)
        end
      else scan_map (cons post) (reply_posts us pid cid uid content rest)
  end.

(** Outer loop of both cases: the subreddits are visited in the order
    [ord]; [body] is the inner loop over one subreddit's posts. *)
Fixpoint range_subreddits (body : list Post → Scan (list Post)) (ord : list string)
    (subs : gmap string Subreddit) : Scan (gmap string Subreddit) :=
  match ord with
  | [] => Miss
  | name :: rest =>
      match subs !! name with
      | None => range_subreddits body rest subs
      | Some subreddit =>
          match body (Subreddit_Posts subreddit) with
          | Hit posts => Hit (<[name := set_Posts posts subreddit]> subs)
          | Fault => Fault
          | Miss => range_subreddits body rest subs
          end
      end
  end.

(** The orders in which [range state.subreddits] may visit the map. *)
Definition range_order (subs : gmap string Subreddit) (ord : list string) : Prop :=
  ord ≡ₚ (map_to_list subs).*1.

Definition Receive (ord : list string) (state : EngineActor) (msg : Msg) : Outcome :=
  match msg with
  | RegisterUser Username =>
      let state := set_nextUserID (incr (nextUserID state)) state in
      let user := mkUser (nextUserID state) Username [] in
      let state := set_users (<[User_ID user := user]> (users state)) state in
      Replied state (registered_reply Username (User_ID user))
  | CreateSubreddit _ sr =>
      match subreddits state !! sr with
      | Some _ => Replied state (already_exists_reply sr)
      | None =>
          Replied (set_subreddits (<[sr := mkSubreddit sr ∅ []]> (subreddits state)) state)
                  (created_reply sr)
      end
  | JoinSubreddit UserID sr =>
      match subreddits state !! sr with
      | Some subreddit =>
          let state :=
            set_subreddits
              (<[sr := set_Users (<[UserID := true]> (Subreddit_Users subreddit)) subreddit]>
                 (subreddits state)) state in
          Replied state (joined_reply (getUsername state UserID) sr)
      | None => Replied state (no_subreddit_reply sr)
      end
  | LeaveSubreddit UserID sr =>
      match subreddits state !! sr with
      | Some subreddit =>
          let state :=
            set_subreddits
              (<[sr := set_Users (delete UserID (Subreddit_Users subreddit)) subreddit]>
                 (subreddits state)) state in
          Replied state (left_reply (getUsername state UserID) sr)
      | None => Replied state (no_subreddit_reply sr)
      end
  | CreatePost UserID sr Content =>
      let state := set_nextPostID (incr (nextPostID state)) state in
      match subreddits state !! sr with
      | Some subreddit =>
          let post := mkPost (nextPostID state) UserID sr Content [] in
          let state :=
            set_subreddits
              (<[sr := set_Posts (Subreddit_Posts subreddit ++ [post]) subreddit]>
                 (subreddits state)) state in
          Replied state (posted_reply (getUsername state UserID) sr Content)
      | None => Replied state (no_subreddit_reply sr)
      end
  | CommentOnPost PostID UserID Content =>
      let line := comment_line (getUsername state UserID) Content in
      match range_subreddits (comment_posts PostID line) ord (subreddits state) with
      | Hit subs =>
          let state := set_subreddits subs state in
          Replied state (commented_reply (getUsername state UserID) PostID Content)
      | Miss => Replied state no_post_reply
      | Fault => NilDereference
      end
  | ReplyToComment PostID CommentID UserID Content =>
      match range_subreddits (reply_posts (users state) PostID CommentID UserID Content)
              ord (subreddits state) with
      | Hit subs =>
          match users state !! UserID with
          | Some user =>
              Replied (set_subreddits subs state)
                      (replied_reply (User_Username user) CommentID PostID Content)
          | None => NilDereference
          end
      | Miss => Replied state no_comment_reply
      | Fault => NilDereference
      end
  | LikePost PostID UserID =>
      Replied state (liked_reply (getUsername state UserID) PostID)
  | DislikePost PostID UserID =>
      Replied state (disliked_reply (getUsername state UserID) PostID)
  | SendMessage SenderID ReceiverID Content =>
      match users state !! ReceiverID with
      | Some receiver =>
          let receiver' :=
            set_Inbox (User_Inbox receiver ++
                       [message_line (getUsername state SenderID) Content]) receiver in
          Replied (set_users (<[ReceiverID := receiver']> (users state)) state)
                  (message_sent_reply (User_Username receiver'))
      | None => Replied state (no_user_reply ReceiverID)
      end
  | ReplyToMessage SenderID ReceiverID Content =>
      match users state !! ReceiverID with
      | Some receiver =>
          let receiver' :=
            set_Inbox (User_Inbox receiver ++
                       [message_reply_line (getUsername state SenderID) Content]) receiver in
          Replied (set_users (<[ReceiverID := receiver']> (users state)) state)
                  (reply_sent_reply (User_Username receiver'))
      | None => Replied state (no_user_reply ReceiverID)
      end
  | ViewInbox UserID =>
      match users state !! UserID with
      | Some user =>
          if decide (len (User_Inbox user) = 0)
          then Replied state inbox_empty_reply
          else
            let inboxContent := Join (User_Inbox user) NL in
            Replied state (inbox_reply inboxContent)
      | None => Replied state (no_user_reply UserID)
      end
  end.

(** Running a list of requests, each with the order its [range] loop would
    use; a panic ends the run. *)
Fixpoint run (state : EngineActor) (reqs : list (list string * Msg)) : option EngineActor :=
  match reqs with
  | [] => Some state
  | (ord, msg) :: rest =>
      match Receive ord state msg with
      | Replied state' _ => run state' rest
      | NilDereference => None
      end
  end.

(** The state after one request. *)
Definition state_of (o : Outcome) : option EngineActor :=
  match o with
  | Replied st _ => Some st
  | NilDereference => None
  end.

(** ** Notions used in the statements *)

(** Number of [RegisterUser] requests in a run. *)
Fixpoint registrations (reqs : list (list string * Msg)) : Z :=
  match reqs with
  | [] => 0
  | (_, RegisterUser _) :: rest => 1 + registrations rest
  | _ :: rest => registrations rest
  end.

Definition is_RegisterUser (msg : Msg) : Prop :=
  match msg with
  | RegisterUser _ => True
  | _ => False
  end.

(** The user ids are exactly [1 .. k] and the counter stands at [k]. *)
Definition ids_upto (state : EngineActor) (k : Z) : Prop :=
  nextUserID state = k ∧ ∀ i, is_Some (users state !! i) ↔ 1 ≤ i ≤ k.

(** A join or a leave of user [uid] on community [sr]. *)
Definition join_or_leave (uid : Z) (sr : string) (msg : Msg) : Prop :=
  msg = JoinSubreddit uid sr ∨ msg = LeaveSubreddit uid sr.

(** The member set after a join ([Users[uid] = true]) or a leave
    ([delete(Users, uid)]) of [uid]. *)
Definition members_after (uid : Z) (msg : Msg) (members : gmap Z bool) : gmap Z bool :=
  match msg with
  | JoinSubreddit _ _ => <[uid := true]> members
  | LeaveSubreddit _ _ => delete uid members
  | _ => members
  end.

(** The store after one join or leave of [uid] on the community [sr], whose
    entry before the request is [subreddit]. *)
Definition store_after (uid : Z) (sr : string) (st : EngineActor)
    (subreddit : Subreddit) (msg : Msg) : EngineActor :=
  set_subreddits
    (<[sr := set_Users (members_after uid msg (Subreddit_Users subreddit)) subreddit]>
       (subreddits st)) st.

(** Membership of [uid] in community [sr], if the community exists. *)
Definition member_of (state : EngineActor) (sr : string) (uid : Z) : option bool :=
  (λ subreddit, is_member subreddit uid) <$> subreddits state !! sr.



(** The post stored at slot [k] of community [sr]. *)
Definition post_at (state : EngineActor) (sr : string) (k : nat) : option Post :=
  subreddits state !! sr ≫= λ subreddit, Subreddit_Posts subreddit !! k.

(** No other slot of the store holds a post with the ID of the one at slot
    [k] of community [sr]. *)
Definition only_post_with_id (state : EngineActor) (pid : Z) (sr : string) (k : nat) : Prop :=
  ∀ sr' k' post, post_at state sr' k' = Some post → Post_ID post = pid → sr' = sr ∧ k' = k.

(** The test of the [ReplyToComment] loop: the post has the requested ID
    and the comment index is within [1 .. len(post.Comments)]. *)
Definition reply_target (pid cid : Z) (post : Post) : Prop :=
  Post_ID post = pid ∧ 1 ≤ cid ≤ len (Post_Comments post).

(** The comment appended to by a reply of the user named [name]. *)
Definition with_reply_line (name content : string) (cid : Z) (post : Post) : Post :=
  set_Comments
    (alter (λ c, c +:+ reply_line name content) (Z.to_nat (cid - 1)) (Post_Comments post))
    post.

(** The name [getUsername] makes up for an id that is not registered. *)
Definition placeholder (id : Z) : string := "User" +:+ fmt_d id.

(** The store in which [uid] is registered under its placeholder name. *)
Definition with_placeholder_user (uid : Z) (state : EngineActor) : EngineActor :=
  set_users (<[uid := mkUser uid (placeholder uid) []]> (users state)) state.


(** ** The scenario: alice, bob, community golang, one post, one comment *)

Definition alice : User := mkUser 1 "alice" [].
Definition bob : User := mkUser 2 "bob" [].
Definition hello (comments : list string) : Post := mkPost 1 1 "golang" "hello" comments.
Definition golang (posts : list Post) : Subreddit := mkSubreddit "golang" ∅ posts.

Definition two_users : EngineActor :=
  mkEngineActor (<[2 := bob]> (<[1 := alice]> ∅)) ∅ 2 0.
Definition with_golang : EngineActor :=
  mkEngineActor (users two_users) {["golang" := golang []]} 2 0.
Definition with_post : EngineActor :=
  mkEngineActor (users two_users) {["golang" := golang [hello []]]} 2 1.
Definition with_comment : EngineActor :=
  mkEngineActor (users two_users) {["golang" := golang [hello ["User 'bob': nice"]]]} 2 1.
Definition with_reply : EngineActor :=
  mkEngineActor (users two_users)
    {["golang" := golang [hello ["User 'bob': nice" +:+ NL +:+ "Reply by 'bob': thanks"]]]} 2 1.


(** ** Notions for the invariants of the store *)

(** Number of [CreatePost] requests in a run, the refused ones included. *)
Fixpoint creations (reqs : list (list string * Msg)) : Z :=
  match reqs with
  | [] => 0
  | (_, CreatePost _ _ _) :: rest => 1 + creations rest
  | _ :: rest => creations rest
  end.

(** Every user is stored under its own [ID], every community under its own
    [Name], and every post in the community its [Subreddit] field names. *)
Definition keyed (state : EngineActor) : Prop :=
  (∀ id user, users state !! id = Some user → User_ID user = id)
  ∧ (∀ sr subreddit, subreddits state !! sr = Some subreddit →
       Subreddit_Name subreddit = sr
       ∧ ∀ k post, Subreddit_Posts subreddit !! k = Some post → Post_Subreddit post = sr).

(** The post counter stands at [n] and every stored post has an ID within
    [1 .. n]. *)
Definition post_ids_upto (state : EngineActor) (n : Z) : Prop :=
  nextPostID state = n
  ∧ ∀ sr k post, post_at state sr k = Some post → 1 ≤ Post_ID post ≤ n.

(** No two slots of the store hold posts with the same ID. *)
Definition unique_post_ids (state : EngineActor) : Prop :=
  ∀ sr k post sr' k' post',
    post_at state sr k = Some post → post_at state sr' k' = Some post' →
    Post_ID post = Post_ID post' → sr = sr' ∧ k = k'.

(** The fields of a post that no request assigns after its creation. *)
Definition post_header (post : Post) : Z * Z * string * string :=
  (Post_ID post, Post_UserID post, Post_Subreddit post, Post_Content post).

(** [cs'] has at least the comments of [cs], each at its position and with
    its old text as a prefix. *)
Definition grows (cs cs' : list string) : Prop :=
  ∀ i c, cs !! i = Some c → ∃ suffix, cs' !! i = Some (c +:+ suffix).

(** The same post, its comments grown. *)
Definition post_extends (post post' : Post) : Prop :=
  post_header post = post_header post'
  ∧ grows (Post_Comments post) (Post_Comments post').

(** The same community, with at least the posts it had, each at its slot. *)
Definition subreddit_extends (subreddit subreddit' : Subreddit) : Prop :=
  Subreddit_Name subreddit = Subreddit_Name subreddit'
  ∧ ∀ k post, Subreddit_Posts subreddit !! k = Some post →
      ∃ post', Subreddit_Posts subreddit' !! k = Some post' ∧ post_extends post post'.

(** The same user, with lines added at the end of the inbox. *)
Definition user_extends (user user' : User) : Prop :=
  User_ID user = User_ID user'
  ∧ User_Username user = User_Username user'
  ∧ User_Inbox user `prefix_of` User_Inbox user'.

(** Nothing of [state] is lost in [state']. *)
Definition store_extends (state state' : EngineActor) : Prop :=
  (∀ id user, users state !! id = Some user →
     ∃ user', users state' !! id = Some user' ∧ user_extends user user')
  ∧ (∀ sr subreddit, subreddits state !! sr = Some subreddit →
       ∃ subreddit', subreddits state' !! sr = Some subreddit'
                     ∧ subreddit_extends subreddit subreddit').

(** A store with two communities and one post in each. *)
Definition two_communities : EngineActor :=
  mkEngineActor (users two_users)
    (<["rust" := mkSubreddit "rust" ∅ [mkPost 2 2 "rust" "borrow" []]]>
       {["golang" := golang [hello []]]}) 2 2.

(** * Properties *)

(** ** Arithmetic of [int] *)


Lemma wrap_id z : int_min ≤ z ≤ int_max → wrap z = z.
Proof.
  unfold wrap, int_min, int_max. intros Hz.
  rewrite Z.mod_small by lia. lia.
Qed.

Lemma incr_in_range x : int_min ≤ x < int_max → incr x = x + 1.
Proof. intros Hx. unfold incr. apply wrap_id. lia. Qed.


(** ** Requests that fail on a missing or present name *)

Lemma getUsername_set_subreddits m st id :
  getUsername (set_subreddits m st) id = getUsername st id.
Proof. done. Qed.

Lemma getUsername_set_nextPostID n st id :
  getUsername (set_nextPostID n st) id = getUsername st id.
Proof. done. Qed.

(** C3. If a community of that name exists, [CreateSubreddit] replies
    "already exists" and the store after the call is the store before it; in
    particular the community, its member set and its posts are the same. *)
Theorem CreateSubreddit_existing_unchanged
    (ord : list string) (state : EngineActor) (uid : Z) (sr : string)
    (subreddit : Subreddit) :
  subreddits state !! sr = Some subreddit →
  Receive ord state (CreateSubreddit uid sr) = Replied state (already_exists_reply sr)
  ∧ ∀ state', state_of (Receive ord state (CreateSubreddit uid sr)) = Some state' →
      state' = state
      ∧ subreddits state' !! sr = Some subreddit
      ∧ Subreddit_Users <$> subreddits state' !! sr = Some (Subreddit_Users subreddit)
      ∧ Subreddit_Posts <$> subreddits state' !! sr = Some (Subreddit_Posts subreddit).
Proof.
  intros Hsr. cbn [Receive]. rewrite Hsr. split; [done|].
  intros state' [= <-]. by rewrite Hsr.
Qed.

Lemma CreateSubreddit_existing_unchanged_witness :
  Receive [] with_comment (CreateSubreddit 2 "golang")
  = Replied with_comment (already_exists_reply "golang").
Proof.
  destruct (CreateSubreddit_existing_unchanged [] with_comment 2 "golang"
              (golang [hello ["User 'bob': nice"]]) eq_refl) as [HR _].
  exact HR.
Defined.

(** C4. [JoinSubreddit] on a name that is not a community replies "does not
    exist" and leaves the whole store as it was, whatever the user id. *)
Theorem JoinSubreddit_missing_unchanged
    (ord : list string) (state : EngineActor) (uid : Z) (sr : string) :
  subreddits state !! sr = None →
  Receive ord state (JoinSubreddit uid sr) = Replied state (no_subreddit_reply sr).
Proof. intros Hsr. cbn [Receive]. by rewrite Hsr. Qed.

Lemma JoinSubreddit_missing_unchanged_witness :
  Receive [] with_comment (JoinSubreddit 2 "rust")
  = Replied with_comment (no_subreddit_reply "rust").
Proof. apply (JoinSubreddit_missing_unchanged [] with_comment 2 "rust"). reflexivity. Defined.

(** C8. [LikePost] and [DislikePost] leave the store as it was and reply
    with a confirmation, for every store, post id and user id: the handler
    reads no post and writes nothing. *)
Theorem Like_Dislike_no_effect
    (ord : list string) (state : EngineActor) (pid uid : Z) :
  Receive ord state (LikePost pid uid)
    = Replied state (liked_reply (getUsername state uid) pid)
  ∧ Receive ord state (DislikePost pid uid)
    = Replied state (disliked_reply (getUsername state uid) pid).
Proof. done. Qed.



(** ** The scenario, step by step *)







(** ** Registration *)

(** Only [RegisterUser] moves the user counter or the set of user ids. *)
Lemma Receive_keeps_user_ids ord st msg st' r :
  ¬ is_RegisterUser msg →
  Receive ord st msg = Replied st' r →
  nextUserID st' = nextUserID st
  ∧ ∀ i, is_Some (users st' !! i) ↔ is_Some (users st !! i).
Proof.
  intros Hmsg HR. destruct msg; cbn [Receive] in HR; try (by destruct (Hmsg I));
    repeat case_match; simplify_eq; cbn [users nextUserID set_users set_subreddits
      set_nextPostID].
  all: split; [done|]; try done.
  all: intros i; rewrite lookup_insert_is_Some'; split; [|by auto].
  all: intros [<-|?]; eauto.
Qed.

Lemma RegisterUser_outcome ord st name :
  Receive ord st (RegisterUser name)
  = Replied (mkEngineActor
               (<[incr (nextUserID st) := mkUser (incr (nextUserID st)) name []]> (users st))
               (subreddits st) (incr (nextUserID st)) (nextPostID st))
            (registered_reply name (incr (nextUserID st))).
Proof. reflexivity. Qed.

Lemma Receive_ids_upto ord st msg st' r k :
  ids_upto st k → 0 ≤ k → k + registrations [(ord, msg)] ≤ int_max →
  Receive ord st msg = Replied st' r →
  ids_upto st' (k + registrations [(ord, msg)]).
Proof.
  intros [Hn Hk] H0 Hmax HR.
  assert (is_RegisterUser msg ∨ ¬ is_RegisterUser msg) as [Hreg|Hreg]
    by (destruct msg; cbn; auto).
  - destruct msg; try done. cbn [registrations] in *.
    rewrite RegisterUser_outcome in HR. simplify_eq.
    assert (incr (nextUserID st) = nextUserID st + 1) as ->
      by (apply incr_in_range; unfold int_min, int_max in *; lia).
    split; cbn [nextUserID users]; [lia|].
    intros i. rewrite lookup_insert_is_Some, Hk. lia.
  - destruct (Receive_keeps_user_ids _ _ _ _ _ Hreg HR) as [Hn' Hk'].
    assert (registrations [(ord, msg)] = 0) as -> by (by destruct msg).
    rewrite Z.add_0_r. split; [congruence|]. intros i. by rewrite Hk'.
Qed.

Lemma registrations_cons req reqs :
  registrations (req :: reqs) = registrations [req] + registrations reqs.
Proof. destruct req as [ord []]; cbn [registrations]; lia. Qed.

Lemma registrations_nonneg reqs : 0 ≤ registrations reqs.
Proof.
  induction reqs as [|req reqs IH]; [done|].
  rewrite registrations_cons. destruct req as [ord []]; cbn [registrations]; lia.
Qed.

Lemma run_ids_upto reqs : ∀ st k st',
  ids_upto st k → 0 ≤ k → k + registrations reqs ≤ int_max →
  run st reqs = Some st' →
  ids_upto st' (k + registrations reqs).
Proof.
  induction reqs as [|[ord msg] reqs IH]; intros st k st' Hinv H0 Hmax Hrun.
  - cbn in *. simplify_eq. by rewrite Z.add_0_r.
  - rewrite registrations_cons in *. cbn [run] in Hrun.
    destruct (Receive ord st msg) as [st1 r|] eqn:HR; [|done].
    pose proof (registrations_nonneg reqs).
    pose proof (registrations_nonneg [(ord, msg)]).
    rewrite Z.add_assoc. eapply IH; [|lia|lia|done].
    eapply Receive_ids_upto; [done|lia|lia|done].
Qed.

Lemma initial_ids_upto : ids_upto initial 0.
Proof.
  split; [done|]. intros i. cbn [users initial]. rewrite lookup_empty.
  split; [by intros [? ?]|lia].
Qed.




(** ** Joining and leaving *)

Section JoinLeave.
Variables (uid : Z) (sr : string).

Lemma join_or_leave_step ord st subreddit msg :
  subreddits st !! sr = Some subreddit →
  join_or_leave uid sr msg →
  ∃ r, Receive ord st msg = Replied (store_after uid sr st subreddit msg) r.
Proof.
  intros Hsr [-> | ->]; cbn [Receive]; rewrite Hsr; eauto.
Qed.

Lemma members_after_absorb msg1 msg2 members :
  join_or_leave uid sr msg1 → join_or_leave uid sr msg2 →
  members_after uid msg2 (members_after uid msg1 members)
  = members_after uid msg2 members.
Proof.
  intros [-> | ->] [-> | ->]; cbn [members_after].
  - apply insert_insert_eq.
  - apply delete_insert_eq.
  - apply insert_delete_eq.
  - apply delete_delete_eq.
Qed.

Lemma after_absorb st subreddit msg1 msg2 :
  join_or_leave uid sr msg1 → join_or_leave uid sr msg2 →
  store_after uid sr (store_after uid sr st subreddit msg1)
        (set_Users (members_after uid msg1 (Subreddit_Users subreddit)) subreddit) msg2
  = store_after uid sr st subreddit msg2.
Proof.
  intros H1 H2. unfold store_after, set_subreddits, set_Users. cbn.
  by rewrite insert_insert_eq, members_after_absorb.
Qed.

Lemma run_join_leave reqs : ∀ st subreddit lst,
  subreddits st !! sr = Some subreddit →
  Forall (λ r, join_or_leave uid sr r.2) reqs →
  last reqs = Some lst →
  run st reqs = Some (store_after uid sr st subreddit lst.2).
Proof.
  induction reqs as [|[ord1 msg1] reqs IH]; intros st subreddit lst Hsr Hall Hlast; [done|].
  apply Forall_cons in Hall as [H1 Hall]. cbn in H1.
  destruct (join_or_leave_step ord1 st subreddit msg1 Hsr H1) as [r HR].
  cbn [run]. rewrite HR.
  destruct reqs as [|req2 rest].
  - cbn in Hlast. by simplify_eq.
  - change (last ((ord1, msg1) :: req2 :: rest)) with (last (req2 :: rest)) in Hlast.
    erewrite IH; [|by apply lookup_insert_eq|done|done].
    rewrite after_absorb; [done|done|].
    apply last_Some_elem_of in Hlast.
    by apply (proj1 (Forall_forall _ _) Hall) in Hlast.
Qed.

Lemma member_of_after st subreddit msg :
  member_of (store_after uid sr st subreddit msg) sr uid
  = Some (default false (members_after uid msg (Subreddit_Users subreddit) !! uid)).
Proof.
  unfold member_of, store_after. cbn [subreddits set_subreddits].
  by rewrite lookup_insert_eq.
Qed.

(** C5. In a store where community [sr] exists, a non-empty run of joins
    and leaves of user [uid] on [sr] ends in the very store that its last
    request alone produces from the same start; the user is then a
    member exactly when that last request is a join, and this is also
    the membership the last request alone produces from any other store
    that has the community. *)
Theorem join_leave_last_wins
    (state : EngineActor) (reqs : list (list string * Msg)) (lst : list string * Msg) :
  is_Some (subreddits state !! sr) →
  Forall (λ r, join_or_leave uid sr r.2) reqs →
  last reqs = Some lst →
  ∃ state',
    run state reqs = Some state'
    ∧ run state [lst] = Some state'
    ∧ (lst.2 = JoinSubreddit uid sr → member_of state' sr uid = Some true)
    ∧ (lst.2 = LeaveSubreddit uid sr → member_of state' sr uid = Some false)
    ∧ ∀ state0, is_Some (subreddits state0 !! sr) →
        ∃ state0',
          run state0 [lst] = Some state0'
          ∧ member_of state0' sr uid = member_of state' sr uid.
Proof.
  intros [subreddit Hsr] Hall Hlast.
  assert (join_or_leave uid sr lst.2) as Hlst.
  { apply last_Some_elem_of in Hlast.
    by apply (proj1 (Forall_forall _ _) Hall) in Hlast. }
  exists (store_after uid sr state subreddit lst.2). split_and!.
  - by apply run_join_leave.
  - apply run_join_leave; [done| |done]. by apply Forall_singleton.
  - intros ->. rewrite member_of_after. cbn [members_after].
    by rewrite lookup_insert_eq.
  - intros ->. rewrite member_of_after. cbn [members_after].
    by rewrite lookup_delete_eq.
  - intros state0 [subreddit0 Hsr0]. exists (store_after uid sr state0 subreddit0 lst.2). split.
    + apply run_join_leave; [done| |done]. by apply Forall_singleton.
    + rewrite !member_of_after.
      destruct Hlst as [-> | ->]; cbn [members_after].
      * by rewrite !lookup_insert_eq.
      * by rewrite !lookup_delete_eq.
Qed.
End JoinLeave.

Lemma join_leave_last_wins_witness :
  ∃ state',
    run with_golang [([], JoinSubreddit 2 "golang"); ([], LeaveSubreddit 2 "golang");
                     ([], JoinSubreddit 2 "golang")] = Some state'
    ∧ member_of state' "golang" 2 = Some true.
Proof.
  destruct (join_leave_last_wins 2 "golang" with_golang
              [([], JoinSubreddit 2 "golang"); ([], LeaveSubreddit 2 "golang");
               ([], JoinSubreddit 2 "golang")]
              ([], JoinSubreddit 2 "golang"))
    as (state' & Hrun & _ & Hjoin & _).
  - eexists. reflexivity.
  - repeat constructor; (by left) || (by right).
  - reflexivity.
  - exists state'. split; [exact Hrun|]. apply Hjoin. reflexivity.
Defined.

(** ** Inboxes *)









(** ** The search loops *)

Lemma range_order_elem subs ord name subreddit :
  range_order subs ord → subs !! name = Some subreddit → name ∈ ord.
Proof.
  unfold range_order. intros -> Hsr.
  apply list_elem_of_fmap. exists (name, subreddit). split; [done|].
  by apply elem_of_map_to_list.
Qed.

Section Range.
Variable body : list Post → Scan (list Post).
Variable subs : gmap string Subreddit.

Lemma range_subreddits_Miss ord :
  (∀ name subreddit, name ∈ ord → subs !! name = Some subreddit →
     body (Subreddit_Posts subreddit) = Miss) →
  range_subreddits body ord subs = Miss.
Proof.
  induction ord as [|name ord IH]; intros Hmiss; [done|].
  cbn [range_subreddits]. destruct (subs !! name) as [subreddit|] eqn:Hsr.
  - rewrite (Hmiss name subreddit) by (done || left).
    apply IH. intros ????. eapply Hmiss; [by right|done].
  - apply IH. intros ????. eapply Hmiss; [by right|done].
Qed.

Lemma range_subreddits_Hit ord name subreddit posts :
  name ∈ ord →
  subs !! name = Some subreddit →
  body (Subreddit_Posts subreddit) = Hit posts →
  (∀ name' subreddit', name' ≠ name → subs !! name' = Some subreddit' →
     body (Subreddit_Posts subreddit') = Miss) →
  range_subreddits body ord subs = Hit (<[name := set_Posts posts subreddit]> subs).
Proof.
  intros Hin Hsr Hhit Hmiss. induction ord as [|name' ord IH]; [by inversion Hin|].
  cbn [range_subreddits]. destruct (decide (name' = name)) as [->|Hne].
  - by rewrite Hsr, Hhit.
  - assert (name ∈ ord) as Hin' by (inversion Hin; by simplify_eq).
    destruct (subs !! name') as [subreddit'|] eqn:Hsr'; [|by apply IH].
    rewrite (Hmiss name' subreddit') by done. by apply IH.
Qed.

Lemma range_subreddits_Fault ord name subreddit :
  name ∈ ord →
  subs !! name = Some subreddit →
  body (Subreddit_Posts subreddit) = Fault →
  (∀ name' subreddit' posts, subs !! name' = Some subreddit' →
     body (Subreddit_Posts subreddit') ≠ Hit posts) →
  range_subreddits body ord subs = Fault.
Proof.
  intros Hin Hsr Hfault Hnohit. induction ord as [|name' ord IH]; [by inversion Hin|].
  cbn [range_subreddits]. destruct (decide (name' = name)) as [->|Hne].
  - by rewrite Hsr, Hfault.
  - assert (name ∈ ord) as Hin' by (inversion Hin; by simplify_eq).
    destruct (subs !! name') as [subreddit'|] eqn:Hsr'; [|by apply IH].
    destruct (body (Subreddit_Posts subreddit')) as [posts| |] eqn:Hbody;
      [by destruct (Hnohit name' subreddit' posts)|by apply IH|done].
Qed.
End Range.

Section ReplyPosts.
Variables (us : gmap Z User) (pid cid uid : Z) (content : string).

Lemma reply_test post :
  bool_decide (Post_ID post = pid) && bool_decide (cid >= 1)
    && bool_decide (cid <= len (Post_Comments post)) = true
  ↔ reply_target pid cid post.
Proof.
  unfold reply_target. rewrite !andb_true_iff, !bool_decide_eq_true. lia.
Qed.

Lemma reply_posts_Miss posts :
  Forall (λ post, ¬ reply_target pid cid post) posts →
  reply_posts us pid cid uid content posts = Miss.
Proof.
  induction 1 as [|post posts Hpost _ IH]; [done|].
  cbn [reply_posts]. rewrite <-reply_test in Hpost.
  apply not_true_is_false in Hpost. by rewrite Hpost, IH.
Qed.

Lemma reply_posts_unregistered posts :
  us !! uid = None →
  reply_posts us pid cid uid content posts
  = if decide (Exists (reply_target pid cid) posts) then Fault else Miss.
Proof.
  intros Hu. induction posts as [|post posts IH]; cbn [reply_posts].
  - case_decide as HE; [by inversion HE|done].
  - destruct (bool_decide _ && _ && _) eqn:Htest.
    + rewrite Hu. apply reply_test in Htest. rewrite decide_True; [done|by left].
    + rewrite IH. apply not_true_iff_false in Htest. rewrite reply_test in Htest.
      repeat case_decide; try done.
      * destruct H0. by right.
      * inversion H0; by simplify_eq.
Qed.

Lemma reply_posts_Hit posts k post user :
  us !! uid = Some user →
  posts !! k = Some post →
  reply_target pid cid post →
  (∀ j q, posts !! j = Some q → reply_target pid cid q → j = k) →
  reply_posts us pid cid uid content posts
  = Hit (<[k := with_reply_line (User_Username user) content cid post]> posts).
Proof.
  intros Hu. revert k. induction posts as [|p posts IH]; intros k Hk Ht Huniq; [done|].
  cbn [reply_posts]. destruct k as [|k].
  - cbn in Hk. simplify_eq. apply reply_test in Ht. by rewrite Ht, Hu.
  - cbn in Hk. destruct (bool_decide _ && _ && _) eqn:Htest.
    + apply reply_test in Htest. by specialize (Huniq 0%nat p eq_refl Htest).
    + rewrite (IH k); [done|done|done|].
      intros j q Hj Hq. by specialize (Huniq (S j) q Hj Hq) as [= ->].
Qed.
End ReplyPosts.

(** ** Replying to a comment *)

Lemma post_at_Some st sr k post :
  post_at st sr k = Some post ↔
  ∃ subreddit, subreddits st !! sr = Some subreddit ∧ Subreddit_Posts subreddit !! k = Some post.
Proof.
  unfold post_at. destruct (subreddits st !! sr) as [subreddit|]; cbn.
  - split; [eauto|]. by intros (? & [= <-] & ?).
  - split; [done|]. by intros (? & ? & ?).
Qed.

Lemma post_at_insert st sr subreddit posts sr' k' :
  post_at (set_subreddits (<[sr := set_Posts posts subreddit]> (subreddits st)) st) sr' k'
  = if decide (sr = sr') then posts !! k' else post_at st sr' k'.
Proof.
  unfold post_at. cbn [subreddits set_subreddits]. case_decide as Hsr.
  - subst. by rewrite lookup_insert_eq.
  - by rewrite lookup_insert_ne.
Qed.

(** The state a reply of [user] leaves when slot [k] of [sr] is the post
    the loop stops at. *)
Lemma ReplyToComment_Hit ord st sr k subreddit post cid uid content user :
  range_order (subreddits st) ord →
  subreddits st !! sr = Some subreddit →
  Subreddit_Posts subreddit !! k = Some post →
  only_post_with_id st (Post_ID post) sr k →
  1 ≤ cid ≤ len (Post_Comments post) →
  users st !! uid = Some user →
  Receive ord st (ReplyToComment (Post_ID post) cid uid content)
  = Replied
      (set_subreddits
         (<[sr := set_Posts
                    (<[k := with_reply_line (User_Username user) content cid post]>
                       (Subreddit_Posts subreddit)) subreddit]> (subreddits st)) st)
      (replied_reply (User_Username user) cid (Post_ID post) content).
Proof.
  intros Hord Hsr Hk Huniq Hcid Hu. cbn [Receive].
  erewrite range_subreddits_Hit; [by rewrite Hu|by eapply range_order_elem|done|..].
  - apply reply_posts_Hit; [done|done|done|].
    intros j q Hj [Hq _]. eapply (Huniq sr j q); [|done].
    apply post_at_Some. eauto.
  - intros sr' subreddit' Hne Hsr'. apply reply_posts_Miss.
    apply Forall_lookup. intros j q Hj [Hq _]. destruct Hne.
    eapply (Huniq sr' j q); [|done]. apply post_at_Some. eauto.
Qed.



(** ** Commenting *)

Section CommentPosts.
Variables (pid : Z) (line : string).

Lemma comment_posts_no_Fault posts : comment_posts pid line posts ≠ Fault.
Proof.
  induction posts as [|post posts IH]; [done|]. cbn [comment_posts].
  case_decide; [done|]. by destruct (comment_posts pid line posts).
Qed.

Lemma comment_posts_Hit_inv posts posts' :
  comment_posts pid line posts = Hit posts' →
  ∃ k post,
    posts !! k = Some post ∧ Post_ID post = pid
    ∧ posts' = <[k := set_Comments (Post_Comments post ++ [line]) post]> posts.
Proof.
  revert posts'. induction posts as [|p posts IH]; intros posts' Hhit; [done|].
  cbn [comment_posts] in Hhit. case_decide as Hid.
  - simplify_eq. by exists 0%nat, p.
  - destruct (comment_posts pid line posts) as [posts1| |] eqn:Hrest; [|done..].
    cbn in Hhit. simplify_eq.
    destruct (IH posts1 eq_refl) as (k & post & Hk & Hpid & ->).
    by exists (S k), post.
Qed.

Lemma comment_posts_found posts k post :
  posts !! k = Some post → Post_ID post = pid →
  ∃ posts', comment_posts pid line posts = Hit posts'.
Proof.
  revert k. induction posts as [|p posts IH]; intros k Hk Hpid; [done|].
  cbn [comment_posts]. case_decide as Hid; [eauto|].
  destruct k as [|k]; [cbn in Hk; by simplify_eq|].
  destruct (IH k Hk Hpid) as [posts' ->]. cbn. eauto.
Qed.
End CommentPosts.

Lemma range_subreddits_some_Hit body subs ord name subreddit posts :
  (∀ ps, body ps ≠ Fault) →
  name ∈ ord →
  subs !! name = Some subreddit →
  body (Subreddit_Posts subreddit) = Hit posts →
  ∃ name' subreddit' posts',
    subs !! name' = Some subreddit'
    ∧ body (Subreddit_Posts subreddit') = Hit posts'
    ∧ range_subreddits body ord subs = Hit (<[name' := set_Posts posts' subreddit']> subs).
Proof.
  intros Hnofault Hin Hsr Hhit. induction ord as [|name1 ord IH]; [by inversion Hin|].
  cbn [range_subreddits]. destruct (decide (name1 = name)) as [->|Hne].
  - rewrite Hsr, Hhit. by exists name, subreddit, posts.
  - assert (name ∈ ord) as Hin' by (inversion Hin; by simplify_eq).
    destruct (subs !! name1) as [subreddit1|] eqn:Hsr1; [|by apply IH].
    destruct (body (Subreddit_Posts subreddit1)) as [posts1| |] eqn:Hbody.
    + by exists name1, subreddit1, posts1.
    + by apply IH.
    + by destruct (Hnofault (Subreddit_Posts subreddit1)).
Qed.

(** A comment on the ID of an existing post is appended to a post with
    that ID, under the name [getUsername] gives. *)
Lemma CommentOnPost_found ord st sr k post uid content :
  range_order (subreddits st) ord →
  post_at st sr k = Some post →
  ∃ sr' k' post' st',
    post_at st sr' k' = Some post'
    ∧ Post_ID post' = Post_ID post
    ∧ Receive ord st (CommentOnPost (Post_ID post) uid content)
      = Replied st' (commented_reply (getUsername st uid) (Post_ID post) content)
    ∧ post_at st' sr' k'
      = Some (set_Comments
                (Post_Comments post' ++ [comment_line (getUsername st uid) content]) post')
    ∧ (∀ sr'' k'', (sr'', k'') ≠ (sr', k') → post_at st' sr'' k'' = post_at st sr'' k'')
    ∧ users st' = users st
    ∧ nextUserID st' = nextUserID st
    ∧ nextPostID st' = nextPostID st.
Proof.
  intros Hord Hpost. apply post_at_Some in Hpost as (subreddit & Hsr & Hk).
  set (line := comment_line (getUsername st uid) content).
  destruct (comment_posts_found (Post_ID post) line _ _ _ Hk eq_refl) as [posts Hhit].
  destruct (range_subreddits_some_Hit (comment_posts (Post_ID post) line)
              (subreddits st) ord sr subreddit posts)
    as (sr' & subreddit' & posts' & Hsr' & Hhit' & Hrange);
    [apply comment_posts_no_Fault|by eapply range_order_elem|done|done|].
  apply comment_posts_Hit_inv in Hhit' as (k' & post' & Hk' & Hid & ->).
  pose proof (lookup_lt_Some _ _ _ Hk') as Hlt.
  exists sr', k', post'. eexists. split; [apply post_at_Some; eauto|]. split; [done|].
  cbn [Receive]. fold line. rewrite Hrange. split; [reflexivity|].
  rewrite post_at_insert, decide_True by done.
  split; [by apply list_lookup_insert_eq|]. split; [|done].
  intros sr'' k'' Hne. rewrite post_at_insert. case_decide as Heq; [|done].
  subst sr''. rewrite list_lookup_insert_ne by congruence.
  unfold post_at. by rewrite Hsr'.
Qed.

(** ** Acting users that are not registered *)

Lemma getUsername_unregistered st uid :
  users st !! uid = None → getUsername st uid = placeholder uid.
Proof. intros Hu. unfold getUsername. by rewrite Hu. Qed.

Lemma getUsername_with_placeholder st uid :
  getUsername (with_placeholder_user uid st) uid = placeholder uid.
Proof.
  unfold getUsername, with_placeholder_user. cbn [users set_users].
  by rewrite lookup_insert_eq.
Qed.

Lemma ReplyToComment_Fault ord st sr k post cid uid content :
  range_order (subreddits st) ord →
  post_at st sr k = Some post →
  1 ≤ cid ≤ len (Post_Comments post) →
  users st !! uid = None →
  Receive ord st (ReplyToComment (Post_ID post) cid uid content) = NilDereference.
Proof.
  intros Hord Hpost Hcid Hu. apply post_at_Some in Hpost as (subreddit & Hsr & Hk).
  cbn [Receive]. erewrite range_subreddits_Fault; [done|by eapply range_order_elem|done|..].
  - rewrite reply_posts_unregistered by done. apply decide_True.
    apply Exists_exists. exists post. split; [by eapply list_elem_of_lookup_2|done].
  - intros sr' subreddit' posts _. rewrite reply_posts_unregistered by done.
    by case_decide.
Qed.

(** C9. [ReplyToComment] reads [state.users[id].Username] with no check
    that the id is registered.  Whenever the requested post exists, the
    comment index is within [1 .. count] and the acting id is not
    registered, the handler dereferences nil and sends no reply, where
    [getUsername] would give the placeholder [User<id>] and where a
    [CommentOnPost] of the same id on the same post replies under that
    placeholder. *)
Theorem ReplyToComment_unregistered_panics
    (ord : list string) (state : EngineActor) (sr : string) (k : nat) (post : Post)
    (cid uid : Z) (content : string) :
  range_order (subreddits state) ord →
  post_at state sr k = Some post →
  1 ≤ cid ≤ len (Post_Comments post) →
  users state !! uid = None →
  Receive ord state (ReplyToComment (Post_ID post) cid uid content) = NilDereference
  ∧ getUsername state uid = "User" +:+ fmt_d uid
  ∧ ∃ state',
      Receive ord state (CommentOnPost (Post_ID post) uid content)
      = Replied state' (commented_reply ("User" +:+ fmt_d uid) (Post_ID post) content).
Proof.
  intros Hord Hpost Hcid Hu. split; [by eapply ReplyToComment_Fault|].
  pose proof (getUsername_unregistered _ _ Hu) as Hname. split; [done|].
  destruct (CommentOnPost_found ord state sr k post uid content Hord Hpost)
    as (_ & _ & _ & state' & _ & _ & HR & _).
  exists state'. by rewrite HR, Hname.
Qed.

Lemma ReplyToComment_unregistered_panics_witness :
  users with_comment !! 3 = None
  ∧ Receive ["golang"] with_comment (ReplyToComment 1 1 3 "thanks") = NilDereference
  ∧ getUsername with_comment 3 = "User3".
Proof.
  split; [reflexivity|].
  destruct (ReplyToComment_unregistered_panics ["golang"] with_comment "golang" 0%nat
              (hello ["User 'bob': nice"]) 1 3 "thanks") as (Hpanic & Hname & _).
  - by vm_compute.
  - reflexivity.
  - by vm_compute.
  - reflexivity.
  - split; [exact Hpanic|exact Hname].
Defined.

Lemma range_subreddits_no_Fault body subs ord :
  (∀ ps, body ps ≠ Fault) → range_subreddits body ord subs ≠ Fault.
Proof.
  intros Hnofault. induction ord as [|name ord IH]; [done|].
  cbn [range_subreddits]. destruct (subs !! name) as [subreddit|]; [|done].
  destruct (body (Subreddit_Posts subreddit)) eqn:Hbody; [done|done|].
  by destruct (Hnofault (Subreddit_Posts subreddit)).
Qed.




(** * Further properties of the handler *)

(** ** What one request changes *)

Lemma string_app_nil_r (s : string) : s +:+ "" = s.
Proof. induction s as [|a s IH]; [done|]. exact (f_equal (String a) IH). Qed.

Lemma string_app_assoc (s1 s2 s3 : string) : (s1 +:+ s2) +:+ s3 = s1 +:+ (s2 +:+ s3).
Proof. induction s1 as [|a s1 IH]; [done|]. exact (f_equal (String a) IH). Qed.

Lemma grows_refl cs : grows cs cs.
Proof. intros i c Hc. exists "". by rewrite string_app_nil_r. Qed.

Lemma grows_trans cs1 cs2 cs3 : grows cs1 cs2 → grows cs2 cs3 → grows cs1 cs3.
Proof.
  intros H12 H23 i c Hc. destruct (H12 i c Hc) as [s1 H1].
  destruct (H23 i _ H1) as [s2 H2]. exists (s1 +:+ s2). by rewrite <-string_app_assoc.
Qed.

Lemma grows_app cs line : grows cs (cs ++ [line]).
Proof.
  intros i c Hc. exists "". rewrite string_app_nil_r.
  by apply lookup_app_l_Some.
Qed.

Lemma grows_alter cs i suffix : grows cs (alter (λ c, c +:+ suffix) i cs).
Proof.
  intros j c Hc. destruct (decide (i = j)) as [->|Hne].
  - exists suffix. by rewrite list_lookup_alter_eq, Hc.
  - exists "". by rewrite list_lookup_alter_ne, string_app_nil_r.
Qed.

Lemma range_subreddits_Hit_inv body subs ord subs' :
  range_subreddits body ord subs = Hit subs' →
  ∃ name subreddit posts,
    subs !! name = Some subreddit
    ∧ body (Subreddit_Posts subreddit) = Hit posts
    ∧ subs' = <[name := set_Posts posts subreddit]> subs.
Proof.
  induction ord as [|name ord IH]; [done|]. cbn [range_subreddits].
  destruct (subs !! name) as [subreddit|] eqn:Hsr; [|done].
  destruct (body (Subreddit_Posts subreddit)) as [posts| |] eqn:Hbody; [|done..].
  intros [= <-]. by exists name, subreddit, posts.
Qed.

Lemma reply_posts_Hit_inv us pid cid uid content posts posts' :
  reply_posts us pid cid uid content posts = Hit posts' →
  ∃ k post user,
    posts !! k = Some post ∧ us !! uid = Some user ∧ reply_target pid cid post
    ∧ posts' = <[k := with_reply_line (User_Username user) content cid post]> posts.
Proof.
  revert posts'. induction posts as [|p posts IH]; intros posts' Hhit; [done|].
  cbn [reply_posts] in Hhit.
  destruct (bool_decide _ && _ && _) eqn:Htest.
  - apply reply_test in Htest. destruct (us !! uid) as [user|] eqn:Hu; [|done].
    simplify_eq. by exists 0%nat, p, user.
  - destruct (reply_posts us pid cid uid content posts) as [posts1| |] eqn:Hrest; [|done..].
    cbn in Hhit. simplify_eq.
    destruct (IH posts1 eq_refl) as (k & post & user & Hk & Hu & Ht & ->).
    by exists (S k), post, user.
Qed.

(** The communities after a request: as before, or one new empty community,
    or one member set replaced, or one post appended, or the comments of one
    post grown. *)
Lemma Receive_subreddits ord st msg st' r :
  Receive ord st msg = Replied st' r →
  subreddits st' = subreddits st
  ∨ (∃ sr, subreddits st !! sr = None
           ∧ subreddits st' = <[sr := mkSubreddit sr ∅ []]> (subreddits st))
  ∨ (∃ sr s members, subreddits st !! sr = Some s
           ∧ subreddits st' = <[sr := set_Users members s]> (subreddits st))
  ∨ (∃ uid sr content s, msg = CreatePost uid sr content
           ∧ subreddits st !! sr = Some s
           ∧ subreddits st'
             = <[sr := set_Posts
                         (Subreddit_Posts s
                          ++ [mkPost (incr (nextPostID st)) uid sr content []]) s]>
                 (subreddits st))
  ∨ (∃ sr s k p cs', subreddits st !! sr = Some s
           ∧ Subreddit_Posts s !! k = Some p
           ∧ grows (Post_Comments p) cs'
           ∧ subreddits st'
             = <[sr := set_Posts (<[k := set_Comments cs' p]> (Subreddit_Posts s)) s]>
                 (subreddits st)).
Proof.
  intros HR. destruct msg; cbn [Receive] in HR.
  - simplify_eq. by left.
  - destruct (subreddits st !! Subreddit0) eqn:Hsr; simplify_eq; [by left|].
    right; left. by exists Subreddit0.
  - destruct (subreddits st !! Subreddit0) as [s|] eqn:Hsr; simplify_eq; [|by left].
    do 2 right; left. by eexists Subreddit0, s, _.
  - destruct (subreddits st !! Subreddit0) as [s|] eqn:Hsr; simplify_eq; [|by left].
    do 2 right; left. by eexists Subreddit0, s, _.
  - cbn [subreddits set_nextPostID] in HR.
    destruct (subreddits st !! Subreddit0) as [s|] eqn:Hsr; simplify_eq; [|by left].
    do 3 right; left. by exists UserID, Subreddit0, Content, s.
  - destruct (range_subreddits _ ord (subreddits st)) as [subs| |] eqn:Hrange;
      simplify_eq; [|by left].
    apply range_subreddits_Hit_inv in Hrange as (sr & s & posts & Hsr & Hhit & ->).
    apply comment_posts_Hit_inv in Hhit as (k & p & Hk & _ & ->).
    do 4 right. exists sr, s, k, p. eexists. split_and!; [done|done| |done].
    apply grows_app.
  - destruct (range_subreddits _ ord (subreddits st)) as [subs| |] eqn:Hrange;
      [|by simplify_eq; left|done].
    destruct (users st !! UserID); simplify_eq.
    apply range_subreddits_Hit_inv in Hrange as (sr & s & posts & Hsr & Hhit & ->).
    apply reply_posts_Hit_inv in Hhit as (k & p & user & Hk & _ & _ & ->).
    do 4 right. exists sr, s, k, p. eexists. split_and!; [done|done| |done].
    apply grows_alter.
  - simplify_eq. by left.
  - simplify_eq. by left.
  - destruct (users st !! ReceiverID); simplify_eq; by left.
  - destruct (users st !! ReceiverID); simplify_eq; by left.
  - destruct (users st !! UserID); [case_decide|]; simplify_eq; by left.
Qed.

(** The users after a request: as before, or one user registered, or one
    line appended to one inbox. *)
Lemma Receive_users ord st msg st' r :
  Receive ord st msg = Replied st' r →
  users st' = users st
  ∨ (∃ name, msg = RegisterUser name
       ∧ users st'
         = <[incr (nextUserID st) := mkUser (incr (nextUserID st)) name []]> (users st))
  ∨ (∃ rid user line, users st !! rid = Some user
       ∧ users st' = <[rid := set_Inbox (User_Inbox user ++ [line]) user]> (users st)).
Proof.
  intros HR. destruct msg; cbn [Receive] in HR;
    repeat case_match; simplify_eq; try (by left).
  - right; left. by exists Username.
  - do 2 right. by eexists ReceiverID, _, _.
  - do 2 right. by eexists ReceiverID, _, _.
Qed.

(** Only [CreatePost] moves the post counter, and it does so whether or not
    the community exists. *)
Lemma Receive_nextPostID ord st msg st' r :
  Receive ord st msg = Replied st' r →
  nextPostID st'
  = match msg with CreatePost _ _ _ => incr (nextPostID st) | _ => nextPostID st end.
Proof.
  intros HR. destruct msg; cbn [Receive] in HR;
    cbn [subreddits set_nextPostID] in HR; repeat case_match; by simplify_eq.
Qed.

(** ** Keys and stored names agree *)

Lemma Receive_keyed ord st msg st' r :
  keyed st → Receive ord st msg = Replied st' r → keyed st'.
Proof.
  intros [Hus Hsubs] HR. split.
  - intros id user Hu.
    destruct (Receive_users _ _ _ _ _ HR)
      as [Heq|[(name & _ & Heq)|(rid & u & line & Hrid & Heq)]];
      rewrite Heq in Hu; [by apply Hus|..].
    + apply lookup_insert_Some in Hu as [[<- <-]|[_ Hu]]; [done|by apply Hus].
    + apply lookup_insert_Some in Hu as [[<- <-]|[_ Hu]]; [|by apply Hus].
      cbn [User_ID set_Inbox]. by apply Hus.
  - intros sr subreddit Hsr.
    destruct (Receive_subreddits _ _ _ _ _ HR)
      as [Heq|[(sr0 & _ & Heq)|[(sr0 & s & members & Hs & Heq)
         |[(uid & sr0 & content & s & _ & Hs & Heq)
          |(sr0 & s & k0 & p & cs' & Hs & Hk0 & _ & Heq)]]]];
      rewrite Heq in Hsr; [by apply Hsubs|..];
      (apply lookup_insert_Some in Hsr as [[<- <-]|[_ Hsr]]; [|by apply Hsubs]).
    + split; [done|]. by intros k post Hk.
    + destruct (Hsubs _ _ Hs) as [Hname Hposts]. by split.
    + destruct (Hsubs _ _ Hs) as [Hname Hposts]. split; [done|].
      cbn [Subreddit_Posts set_Posts]. intros k post Hk.
      apply lookup_app_Some in Hk as [Hk|[_ Hk]]; [by eapply Hposts|].
      apply list_lookup_singleton_Some in Hk as [_ <-]. done.
    + destruct (Hsubs _ _ Hs) as [Hname Hposts]. split; [done|].
      cbn [Subreddit_Posts set_Posts]. intros k post Hk.
      apply list_lookup_insert_Some in Hk as [(<- & <- & _)|[_ Hk]];
        [by eapply (Hposts k0 p)|by eapply Hposts].
Qed.

Lemma run_keyed reqs : ∀ st st', keyed st → run st reqs = Some st' → keyed st'.
Proof.
  induction reqs as [|[ord msg] reqs IH]; intros st st' Hk Hrun;
    [by cbn in Hrun; simplify_eq|].
  cbn [run] in Hrun. destruct (Receive ord st msg) as [st1 r|] eqn:HR; [|done].
  eapply IH; [|done]. by eapply Receive_keyed.
Qed.

Lemma initial_keyed : keyed initial.
Proof. split; intros ?? H; cbn in H; by rewrite lookup_empty in H. Qed.

(** X1. In every store a run of requests reaches from the store [main]
    starts with, each user is stored under its own [ID], each community
    under its own [Name], and each post lies in the community that its
    [Subreddit] field names. *)
Theorem reachable_store_keyed (reqs : list (list string * Msg)) (state : EngineActor) :
  run initial reqs = Some state → keyed state.
Proof. apply run_keyed, initial_keyed. Qed.

Lemma reachable_store_keyed_witness :
  User_ID <$> users with_reply !! 2 = Some 2
  ∧ Subreddit_Name <$> subreddits with_reply !! "golang" = Some "golang".
Proof.
  destruct (reachable_store_keyed
              [([], RegisterUser "alice"); ([], RegisterUser "bob");
               ([], CreateSubreddit 1 "golang"); ([], CreatePost 1 "golang" "hello");
               (["golang"], CommentOnPost 1 2 "nice");
               (["golang"], ReplyToComment 1 1 2 "thanks")] with_reply)
    as [Hus Hsubs].
  - vm_compute. reflexivity.
  - split.
    + rewrite <-(Hus 2 bob eq_refl). reflexivity.
    + by destruct (Hsubs "golang" _ eq_refl) as [<- _].
Defined.

(** ** Post IDs *)

(** The posts after a request: the same slots hold posts with the same
    header, or one post was appended to one community. *)
Lemma Receive_posts ord st msg st' r :
  Receive ord st msg = Replied st' r →
  (∀ sr k, post_header <$> post_at st' sr k = post_header <$> post_at st sr k)
  ∨ (∃ uid sr0 content s, msg = CreatePost uid sr0 content
       ∧ subreddits st !! sr0 = Some s
       ∧ ∀ sr k, post_at st' sr k
                 = if decide (sr = sr0 ∧ k = length (Subreddit_Posts s))
                   then Some (mkPost (incr (nextPostID st)) uid sr0 content [])
                   else post_at st sr k).
Proof.
  intros HR.
  destruct (Receive_subreddits _ _ _ _ _ HR)
    as [Heq|[(sr0 & Hs & Heq)|[(sr0 & s & members & Hs & Heq)
       |[(uid & sr0 & content & s & Hmsg & Hs & Heq)
        |(sr0 & s & k0 & p & cs' & Hs & Hk0 & _ & Heq)]]]].
  - left. intros sr k. unfold post_at. by rewrite Heq.
  - left. intros sr k. unfold post_at. rewrite Heq.
    destruct (decide (sr0 = sr)) as [<-|Hne]; [|by rewrite lookup_insert_ne].
    by rewrite lookup_insert_eq, Hs.
  - left. intros sr k. unfold post_at. rewrite Heq.
    destruct (decide (sr0 = sr)) as [<-|Hne]; [|by rewrite lookup_insert_ne].
    by rewrite lookup_insert_eq, Hs.
  - right. exists uid, sr0, content, s. split; [done|]. split; [done|].
    intros sr k. unfold post_at. rewrite Heq.
    destruct (decide (sr0 = sr)) as [<-|Hne].
    + rewrite lookup_insert_eq, Hs. cbn.
      destruct (decide (k = length (Subreddit_Posts s))) as [->|Hk].
      * rewrite decide_True by done. by rewrite list_lookup_middle.
      * rewrite decide_False by (by intros [_ ?]).
        destruct (decide (k < length (Subreddit_Posts s))%nat).
        -- by rewrite lookup_app_l.
        -- rewrite !lookup_ge_None_2; [done|lia|rewrite length_app; cbn; lia].
    + rewrite lookup_insert_ne by done. rewrite decide_False; [done|by intros [? _]].
  - left. intros sr k. unfold post_at. rewrite Heq.
    destruct (decide (sr0 = sr)) as [<-|Hne]; [|by rewrite lookup_insert_ne].
    rewrite lookup_insert_eq, Hs. cbn.
    destruct (decide (k0 = k)) as [<-|Hk]; [|by rewrite list_lookup_insert_ne].
    rewrite list_lookup_insert_eq by (by eapply lookup_lt_Some). by rewrite Hk0.
Qed.

Lemma creations_cons req reqs :
  creations (req :: reqs) = creations [req] + creations reqs.
Proof. destruct req as [ord []]; cbn [creations]; lia. Qed.

Lemma creations_nonneg reqs : 0 ≤ creations reqs.
Proof.
  induction reqs as [|req reqs IH]; [done|].
  rewrite creations_cons. destruct req as [ord []]; cbn [creations]; lia.
Qed.

Lemma same_header_Some st st' sr k post' :
  post_header <$> post_at st' sr k = post_header <$> post_at st sr k →
  post_at st' sr k = Some post' →
  ∃ post, post_at st sr k = Some post ∧ post_header post = post_header post'.
Proof.
  intros Heq Hp. rewrite Hp in Heq. destruct (post_at st sr k) as [post|]; [|done].
  exists post. split; [done|]. cbn in Heq. congruence.
Qed.

Lemma Receive_post_ids ord st msg st' r n :
  post_ids_upto st n → unique_post_ids st →
  0 ≤ n → n + creations [(ord, msg)] ≤ int_max →
  Receive ord st msg = Replied st' r →
  post_ids_upto st' (n + creations [(ord, msg)]) ∧ unique_post_ids st'.
Proof.
  intros [Hn Hids] Huniq H0 Hmax HR.
  pose proof (Receive_nextPostID _ _ _ _ _ HR) as Hnext.
  assert (nextPostID st' = n + creations [(ord, msg)]) as Hn'.
  { rewrite Hnext. destruct msg; cbn [creations]; try lia.
    cbn [creations] in Hmax. rewrite incr_in_range; unfold int_min; lia. }
  pose proof (creations_nonneg [(ord, msg)]) as Hc.
  destruct (Receive_posts _ _ _ _ _ HR) as [Hsame|(uid & sr0 & content & s & -> & Hs & Hat)].
  - split; [split; [done|]|].
    + intros sr k post' Hp.
      destruct (same_header_Some _ _ _ _ _ (Hsame sr k) Hp) as (post & Hpost & [= Hid _ _ _]).
      rewrite <-Hid. specialize (Hids _ _ _ Hpost). lia.
    + intros sr1 k1 p1 sr2 k2 p2 Hp1 Hp2 Hid.
      destruct (same_header_Some _ _ _ _ _ (Hsame sr1 k1) Hp1) as (q1 & Hq1 & [= Hid1 _ _ _]).
      destruct (same_header_Some _ _ _ _ _ (Hsame sr2 k2) Hp2) as (q2 & Hq2 & [= Hid2 _ _ _]).
      apply (Huniq _ _ _ _ _ _ Hq1 Hq2). congruence.
  - cbn [creations] in *.
    assert (incr (nextPostID st) = n + 1) as Hnew
      by (rewrite Hn; apply incr_in_range; unfold int_min; lia).
    rewrite Hnew in Hat. split; [split; [lia|]|].
    + intros sr k post' Hp. rewrite Hat in Hp. case_decide.
      * simplify_eq. cbn. lia.
      * specialize (Hids _ _ _ Hp). lia.
    + intros sr1 k1 p1 sr2 k2 p2 Hp1 Hp2 Hid. rewrite Hat in Hp1, Hp2.
      destruct (decide (sr1 = sr0 ∧ k1 = length (Subreddit_Posts s))) as [[-> ->]|H1];
        destruct (decide (sr2 = sr0 ∧ k2 = length (Subreddit_Posts s))) as [[-> ->]|H2].
      * done.
      * injection Hp1 as <-. cbn [Post_ID] in Hid. specialize (Hids _ _ _ Hp2). lia.
      * injection Hp2 as <-. cbn [Post_ID] in Hid. specialize (Hids _ _ _ Hp1). lia.
      * by eapply Huniq.
Qed.

Lemma run_post_ids reqs : ∀ st st' n,
  post_ids_upto st n → unique_post_ids st →
  0 ≤ n → n + creations reqs ≤ int_max →
  run st reqs = Some st' →
  post_ids_upto st' (n + creations reqs) ∧ unique_post_ids st'.
Proof.
  induction reqs as [|[ord msg] reqs IH]; intros st st' n Hup Huniq H0 Hmax Hrun.
  - cbn in *. simplify_eq. by rewrite Z.add_0_r.
  - rewrite creations_cons in *. cbn [run] in Hrun.
    destruct (Receive ord st msg) as [st1 r|] eqn:HR; [|done].
    pose proof (creations_nonneg reqs). pose proof (creations_nonneg [(ord, msg)]).
    destruct (Receive_post_ids ord st msg st1 r n Hup Huniq H0) as [Hup1 Huniq1];
      [lia|done|].
    rewrite Z.add_assoc. eapply IH; [done|done|lia|lia|done].
Qed.

Lemma initial_post_ids : post_ids_upto initial 0 ∧ unique_post_ids initial.
Proof. split; [split; [done|]|]; intros ??? H; by cbn in H. Qed.

(** X2. In a store reached from the store [main] starts with by a run
    holding [n ≤ 2^63-1] [CreatePost] requests, the post counter stands at
    [n] (the refused requests count too), every stored post has an ID
    within [1 .. n], and no two posts of the store share an ID. *)
Theorem reachable_post_ids_unique (reqs : list (list string * Msg)) (state : EngineActor) :
  run initial reqs = Some state →
  creations reqs ≤ int_max →
  nextPostID state = creations reqs
  ∧ (∀ sr k post, post_at state sr k = Some post → 1 ≤ Post_ID post ≤ creations reqs)
  ∧ unique_post_ids state.
Proof.
  intros Hrun Hmax. destruct initial_post_ids as [Hup Huniq].
  destruct (run_post_ids reqs initial state 0 Hup Huniq) as [[Hn Hids] Hu]; [done|lia|done|].
  rewrite Z.add_0_l in Hn, Hids. by split_and!.
Qed.

Lemma reachable_post_ids_unique_witness :
  ∃ state,
    run initial [([], RegisterUser "alice"); ([], CreateSubreddit 1 "golang");
                 ([], CreatePost 1 "rust" "lost"); ([], CreatePost 1 "golang" "hello")]
    = Some state
    ∧ nextPostID state = 2
    ∧ unique_post_ids state.
Proof.
  destruct (run initial [([], RegisterUser "alice"); ([], CreateSubreddit 1 "golang");
                         ([], CreatePost 1 "rust" "lost");
                         ([], CreatePost 1 "golang" "hello")]) as [state|] eqn:Hrun;
    [|by vm_compute in Hrun].
  exists state. split; [reflexivity|].
  destruct (reachable_post_ids_unique _ state Hrun) as (Hn & _ & Huniq).
  - by vm_compute.
  - split; [exact Hn|exact Huniq].
Defined.

(** ** The visiting order of the map *)

Lemma range_subreddits_perm body subs ord1 ord2 :
  ord1 ≡ₚ ord2 →
  (∀ n1 n2 s1 s2, subs !! n1 = Some s1 → subs !! n2 = Some s2 →
     body (Subreddit_Posts s1) ≠ Miss → body (Subreddit_Posts s2) ≠ Miss → n1 = n2) →
  range_subreddits body ord1 subs = range_subreddits body ord2 subs.
Proof.
  intros Hperm Hone. induction Hperm as [|x l l' _ IH|x y l|l l' l'' _ IH1 _ IH2].
  - done.
  - cbn [range_subreddits]. by rewrite IH.
  - cbn [range_subreddits].
    destruct (subs !! x) as [sx|] eqn:Hx; [|done].
    destruct (subs !! y) as [sy|] eqn:Hy; [|done].
    destruct (body (Subreddit_Posts sx)) eqn:Hbx;
      destruct (body (Subreddit_Posts sy)) eqn:Hby; try done.
    all: assert (y = x) as -> by (apply (Hone y x sy sx); congruence).
    all: congruence.
  - by rewrite IH1.
Qed.

Lemma comment_posts_not_Miss pid line posts :
  comment_posts pid line posts ≠ Miss →
  ∃ k post, posts !! k = Some post ∧ Post_ID post = pid.
Proof.
  induction posts as [|p posts IH]; [done|]. cbn [comment_posts].
  case_decide as Hid; [by exists 0%nat, p|].
  destruct (comment_posts pid line posts); try done.
  all: intros _; destruct IH as (k & post & Hk & Hpid); [done|by exists (S k), post].
Qed.

Lemma reply_posts_not_Miss us pid cid uid content posts :
  reply_posts us pid cid uid content posts ≠ Miss →
  ∃ k post, posts !! k = Some post ∧ reply_target pid cid post.
Proof.
  induction posts as [|p posts IH]; [done|]. cbn [reply_posts].
  destruct (bool_decide _ && _ && _) eqn:Htest.
  - apply reply_test in Htest. by exists 0%nat, p.
  - destruct (reply_posts us pid cid uid content posts); try done.
    all: intros _; destruct IH as (k & post & Hk & Ht); [done|by exists (S k), post].
Qed.

(** X3. In a store where no two posts share an ID, what a request does
    and what it replies do not depend on the order in which Go's [range]
    visits the map of communities. *)
Theorem Receive_order_independent
    (state : EngineActor) (msg : Msg) (ord1 ord2 : list string) :
  unique_post_ids state →
  range_order (subreddits state) ord1 →
  range_order (subreddits state) ord2 →
  Receive ord1 state msg = Receive ord2 state msg.
Proof.
  intros Huniq Ho1 Ho2.
  assert (ord1 ≡ₚ ord2) as Hperm by (unfold range_order in *; by rewrite Ho1, Ho2).
  destruct msg; try done; cbn [Receive].
  - rewrite (range_subreddits_perm _ _ ord1 ord2 Hperm); [done|].
    intros n1 n2 s1 s2 Hs1 Hs2 H1 H2.
    apply comment_posts_not_Miss in H1 as (k1 & p1 & Hk1 & Hid1).
    apply comment_posts_not_Miss in H2 as (k2 & p2 & Hk2 & Hid2).
    eapply (Huniq n1 k1 p1 n2 k2 p2); [apply post_at_Some; eauto..|congruence].
  - rewrite (range_subreddits_perm _ _ ord1 ord2 Hperm); [done|].
    intros n1 n2 s1 s2 Hs1 Hs2 H1 H2.
    apply reply_posts_not_Miss in H1 as (k1 & p1 & Hk1 & Hid1 & _).
    apply reply_posts_not_Miss in H2 as (k2 & p2 & Hk2 & Hid2 & _).
    eapply (Huniq n1 k1 p1 n2 k2 p2); [apply post_at_Some; eauto..|congruence].
Qed.

Lemma Receive_order_independent_witness :
  Receive ["golang"; "rust"] two_communities (CommentOnPost 2 1 "nice")
  = Receive ["rust"; "golang"] two_communities (CommentOnPost 2 1 "nice").
Proof.
  apply Receive_order_independent.
  - apply (run_post_ids
             [([], RegisterUser "alice"); ([], RegisterUser "bob");
              ([], CreateSubreddit 1 "golang"); ([], CreateSubreddit 2 "rust");
              ([], CreatePost 1 "golang" "hello"); ([], CreatePost 2 "rust" "borrow")]
             initial two_communities 0);
      [apply initial_post_ids|apply initial_post_ids|done|by vm_compute|].
    vm_compute. reflexivity.
  - unfold range_order. vm_compute. first [reflexivity | apply perm_swap].
  - unfold range_order. vm_compute. first [reflexivity | apply perm_swap].
Defined.

(** ** Requests that find nothing *)

Lemma comment_posts_Miss pid line posts :
  (∀ k post, posts !! k = Some post → Post_ID post ≠ pid) →
  comment_posts pid line posts = Miss.
Proof.
  induction posts as [|p posts IH]; intros Hno; [done|]. cbn [comment_posts].
  rewrite decide_False by apply (Hno 0%nat p eq_refl).
  rewrite IH; [done|]. intros k post Hk. by apply (Hno (S k)).
Qed.

Lemma green_not_red body body' : green body ≠ red body'.
Proof. unfold green, red, ESC. cbv [String.append]. discriminate. Qed.

(** X4. [CommentOnPost] on an ID that no stored post has leaves the store
    as it was and replies with the text [Post ID '%!d(MISSING)' not found.]
    in red: the format has a [%d] and the call passes no operand, so the
    reply does not show the ID.  For an order [range] may use, that reply
    is sent only when no post has the ID. *)
Theorem CommentOnPost_missing_post
    (ord : list string) (state : EngineActor) (pid uid : Z) (content : string) :
  ((∀ sr k post, post_at state sr k = Some post → Post_ID post ≠ pid) →
   Receive ord state (CommentOnPost pid uid content)
   = Replied state (red "Post ID '%!d(MISSING)' not found."))
  ∧ (range_order (subreddits state) ord →
     ∀ state', Receive ord state (CommentOnPost pid uid content)
               = Replied state' (red "Post ID '%!d(MISSING)' not found.") →
     ∀ sr k post, post_at state sr k = Some post → Post_ID post ≠ pid).
Proof.
  split.
  - intros Hno. cbn [Receive]. rewrite range_subreddits_Miss; [done|].
    intros sr subreddit _ Hsr. apply comment_posts_Miss.
    intros k post Hk. apply (Hno sr k). apply post_at_Some. eauto.
  - intros Hord state' HR sr k post Hpost <-.
    destruct (CommentOnPost_found ord state sr k post uid content Hord Hpost)
      as (_ & _ & _ & st1 & _ & _ & HR1 & _).
    rewrite HR1 in HR.
    assert (commented_reply (getUsername state uid) (Post_ID post) content
            = red "Post ID '%!d(MISSING)' not found.") as Hreply by congruence.
    by apply green_not_red in Hreply.
Qed.

Lemma CommentOnPost_missing_post_witness :
  Receive ["golang"] with_comment (CommentOnPost 7 2 "lost")
  = Replied with_comment (red "Post ID '%!d(MISSING)' not found.").
Proof.
  destruct (CommentOnPost_missing_post ["golang"] with_comment 7 2 "lost") as [Hmiss _].
  apply Hmiss. intros sr k post Hpost.
  apply post_at_Some in Hpost as (subreddit & Hsr & Hk).
  unfold with_comment in Hsr. cbn [subreddits] in Hsr.
  apply lookup_singleton_Some in Hsr as [<- <-].
  destruct k as [|[|k]]; cbn in Hk; [|done..]. by injection Hk as <-.
Defined.

(** X5. [ReplyToComment] leaves the store as it was and replies [Comment or
    Post not found.] whenever no stored post has both the requested ID and
    at least [cid] comments with [cid ≥ 1]: so for an ID no post has, and
    for every index below 1.  This holds for every user id, registered or
    not: the user is only looked up once a post and a comment are found. *)
Theorem ReplyToComment_not_found
    (ord : list string) (state : EngineActor) (pid cid uid : Z) (content : string) :
  ((∀ sr k post, post_at state sr k = Some post → ¬ reply_target pid cid post) →
   Receive ord state (ReplyToComment pid cid uid content) = Replied state no_comment_reply)
  ∧ ((∀ sr k post, post_at state sr k = Some post → Post_ID post ≠ pid) →
     Receive ord state (ReplyToComment pid cid uid content)
     = Replied state no_comment_reply)
  ∧ (cid < 1 →
     Receive ord state (ReplyToComment pid cid uid content)
     = Replied state no_comment_reply).
Proof.
  assert ((∀ sr k post, post_at state sr k = Some post → ¬ reply_target pid cid post) →
          Receive ord state (ReplyToComment pid cid uid content)
          = Replied state no_comment_reply) as Hgen.
  { intros Hno. cbn [Receive]. rewrite range_subreddits_Miss; [done|].
    intros sr subreddit _ Hsr. apply reply_posts_Miss. apply Forall_lookup.
    intros k post Hk. apply (Hno sr k). apply post_at_Some. eauto. }
  split_and!; [done|..].
  - intros Hno. apply Hgen. intros sr k post Hpost [Hid _]. by apply (Hno sr k post).
  - intros Hcid. apply Hgen. intros sr k post _ [_ Hr]. lia.
Qed.

Lemma ReplyToComment_not_found_witness :
  Receive ["golang"] with_comment (ReplyToComment 1 0 3 "thanks")
  = Replied with_comment no_comment_reply.
Proof.
  destruct (ReplyToComment_not_found ["golang"] with_comment 1 0 3 "thanks")
    as (_ & _ & Hlow).
  apply Hlow. reflexivity.
Defined.

(** ** Which requests are answered *)

Lemma reply_posts_registered us pid cid uid content posts user :
  us !! uid = Some user → reply_posts us pid cid uid content posts ≠ Fault.
Proof.
  intros Hu. induction posts as [|p posts IH]; [done|]. cbn [reply_posts].
  destruct (bool_decide _ && _ && _); [by rewrite Hu|].
  by destruct (reply_posts us pid cid uid content posts).
Qed.

(** X6. [ReplyToComment] by an id that is not registered is the only
    request that can end in a panic: every other request, and
    [ReplyToComment] by a registered user, sends a reply, in every store
    and for every visiting order. *)
Theorem Receive_replies (ord : list string) (state : EngineActor) (msg : Msg) :
  (∀ pid cid uid content,
     msg = ReplyToComment pid cid uid content → is_Some (users state !! uid)) →
  ∃ state' reply, Receive ord state msg = Replied state' reply.
Proof.
  intros Hreg. destruct msg; cbn [Receive]; repeat case_match; eauto.
  - by apply range_subreddits_no_Fault in H; [|apply comment_posts_no_Fault].
  - by destruct (Hreg _ _ _ _ eq_refl) as [user Hu]; simplify_eq.
  - destruct (Hreg _ _ _ _ eq_refl) as [user Hu].
    apply range_subreddits_no_Fault in H; [done|].
    intros ps. by eapply reply_posts_registered.
Qed.

Lemma Receive_replies_witness :
  ∃ state' reply,
    Receive ["golang"] with_comment (ReplyToComment 1 5 2 "thanks") = Replied state' reply.
Proof.
  apply Receive_replies. intros pid cid uid content [= _ _ <- _]. by eexists.
Defined.

(** ** Lookups that fail *)

(** X7. A request that names a community or a user the store does not have
    changes nothing: [LeaveSubreddit] on a missing community replies
    [Subreddit '<name>' does not exist.], and [SendMessage],
    [ReplyToMessage] and [ViewInbox] on an unregistered receiver or user
    reply [User with ID <id> does not exist.]; no message is kept for a
    receiver that registers later. *)
Theorem missing_key_leaves_store (ord : list string) (state : EngineActor) :
  (∀ uid sr, subreddits state !! sr = None →
     Receive ord state (LeaveSubreddit uid sr) = Replied state (no_subreddit_reply sr))
  ∧ (∀ sid rid content, users state !! rid = None →
       Receive ord state (SendMessage sid rid content) = Replied state (no_user_reply rid)
       ∧ Receive ord state (ReplyToMessage sid rid content)
         = Replied state (no_user_reply rid))
  ∧ (∀ uid, users state !! uid = None →
       Receive ord state (ViewInbox uid) = Replied state (no_user_reply uid)).
Proof.
  split_and!.
  - intros uid sr Hsr. cbn [Receive]. by rewrite Hsr.
  - intros sid rid content Hu. cbn [Receive]. by rewrite Hu.
  - intros uid Hu. cbn [Receive]. by rewrite Hu.
Qed.

Lemma missing_key_leaves_store_witness :
  Receive [] with_comment (SendMessage 1 9 "hi") = Replied with_comment (no_user_reply 9)
  ∧ Receive [] with_comment (ViewInbox 9) = Replied with_comment (no_user_reply 9)
  ∧ Receive [] with_comment (LeaveSubreddit 1 "rust")
    = Replied with_comment (no_subreddit_reply "rust").
Proof.
  destruct (missing_key_leaves_store [] with_comment) as (Hleave & Hsend & Hview).
  split_and!.
  - apply (Hsend 1 9 "hi"). reflexivity.
  - apply (Hview 9). reflexivity.
  - apply (Hleave 1 "rust"). reflexivity.
Defined.

(** ** Creating a community *)

(** X8. [CreateSubreddit] on a name the store does not have adds a
    community of that name with no member and no post, and changes nothing
    else: the creating user is not made a member, and its id is not looked
    at.  Asking again for the same name, by anyone, is refused and changes
    nothing. *)
Theorem CreateSubreddit_fresh
    (ord : list string) (state : EngineActor) (uid : Z) (sr : string) :
  subreddits state !! sr = None →
  ∃ state',
    Receive ord state (CreateSubreddit uid sr) = Replied state' (created_reply sr)
    ∧ subreddits state' !! sr = Some (mkSubreddit sr ∅ [])
    ∧ (∀ u, member_of state' sr u = Some false)
    ∧ (∀ k, post_at state' sr k = None)
    ∧ (∀ sr', sr' ≠ sr → subreddits state' !! sr' = subreddits state !! sr')
    ∧ users state' = users state
    ∧ nextUserID state' = nextUserID state
    ∧ nextPostID state' = nextPostID state
    ∧ (∀ uid', Receive ord state (CreateSubreddit uid' sr) = Replied state' (created_reply sr))
    ∧ (∀ ord' uid', Receive ord' state' (CreateSubreddit uid' sr)
                    = Replied state' (already_exists_reply sr)).
Proof.
  intros Hsr.
  exists (set_subreddits (<[sr := mkSubreddit sr ∅ []]> (subreddits state)) state).
  cbn [Receive]. rewrite Hsr.
  cbn [subreddits users nextUserID nextPostID set_subreddits].
  split_and!; try done.
  - by rewrite lookup_insert_eq.
  - intros u. unfold member_of. cbn [subreddits set_subreddits].
    by rewrite lookup_insert_eq.
  - intros k. unfold post_at. cbn [subreddits set_subreddits].
    by rewrite lookup_insert_eq.
  - intros sr' Hne. by rewrite lookup_insert_ne.
  - intros ord' uid'. by rewrite lookup_insert_eq.
Qed.

Lemma CreateSubreddit_fresh_witness :
  ∃ state',
    Receive [] with_comment (CreateSubreddit 2 "rust") = Replied state' (created_reply "rust")
    ∧ member_of state' "rust" 2 = Some false.
Proof.
  destruct (CreateSubreddit_fresh [] with_comment 2 "rust" eq_refl)
    as (state' & HR & _ & Hmem & _).
  exists state'. split; [exact HR|apply Hmem].
Defined.

(** ** Joining and leaving: what stays *)





(** ** Messages *)

(** X11. [SendMessage] and [ReplyToMessage] to a registered receiver are
    confirmed with the receiver's name and append exactly one line, formed
    from [getUsername] of the sender and the content, at the end of the
    receiver's inbox.  Every other user, the receiver's id and name, the
    communities and both counters stay.  The sender may be anyone: an
    unregistered id or the receiver itself.  [ReplyToMessage] needs no
    earlier message to reply to. *)
Theorem message_delivery
    (ord : list string) (state : EngineActor) (sid rid : Z) (content : string)
    (receiver : User) :
  users state !! rid = Some receiver →
  (∃ state',
     Receive ord state (SendMessage sid rid content)
     = Replied state' (message_sent_reply (User_Username receiver))
     ∧ users state' !! rid
       = Some (mkUser (User_ID receiver) (User_Username receiver)
                 (User_Inbox receiver ++ [message_line (getUsername state sid) content]))
     ∧ (∀ id, id ≠ rid → users state' !! id = users state !! id)
     ∧ (∀ id, getUsername state' id = getUsername state id)
     ∧ subreddits state' = subreddits state
     ∧ nextUserID state' = nextUserID state
     ∧ nextPostID state' = nextPostID state)
  ∧ (∃ state',
       Receive ord state (ReplyToMessage sid rid content)
       = Replied state' (reply_sent_reply (User_Username receiver))
       ∧ users state' !! rid
         = Some (mkUser (User_ID receiver) (User_Username receiver)
                   (User_Inbox receiver
                    ++ [message_reply_line (getUsername state sid) content]))
       ∧ (∀ id, id ≠ rid → users state' !! id = users state !! id)
       ∧ (∀ id, getUsername state' id = getUsername state id)
       ∧ subreddits state' = subreddits state
       ∧ nextUserID state' = nextUserID state
       ∧ nextPostID state' = nextPostID state).
Proof.
  intros Hr.
  assert (∀ line id,
            getUsername
              (set_users (<[rid := set_Inbox (User_Inbox receiver ++ [line]) receiver]>
                            (users state)) state) id
            = getUsername state id) as Hnames.
  { intros line id. unfold getUsername. cbn [users set_users].
    destruct (decide (rid = id)) as [<-|Hne]; [|by rewrite lookup_insert_ne].
    by rewrite lookup_insert_eq, Hr. }
  split; eexists; cbn [Receive]; rewrite Hr; (split; [reflexivity|]);
    cbn [users subreddits nextUserID nextPostID set_users];
    (split_and!; [by rewrite lookup_insert_eq| |apply Hnames|done..]);
    intros id Hne; by rewrite lookup_insert_ne.
Qed.

Lemma message_delivery_witness :
  ∃ state',
    Receive [] two_users (ReplyToMessage 2 2 "note to self")
    = Replied state' (reply_sent_reply "bob")
    ∧ User_Inbox <$> users state' !! 2 = Some ["Reply from 'bob': note to self"]
    ∧ users state' !! 1 = Some alice.
Proof.
  destruct (message_delivery [] two_users 2 2 "note to self" bob eq_refl)
    as [_ (state' & HR & Hin & Hother & _)].
  exists state'. split; [exact HR|]. split.
  - rewrite Hin. reflexivity.
  - rewrite Hother by done. reflexivity.
Defined.

(** ** Registering and then using the id *)

(** X12. After [RegisterUser] the new id resolves to the registered name
    and every other id resolves as before; the new user's inbox shows as
    empty, and a message to the new id is delivered.  So the id in the
    reply of a registration is at once usable in later requests. *)
Theorem RegisterUser_then_lookup
    (ord : list string) (state : EngineActor) (name : string) :
  ∃ state',
    Receive ord state (RegisterUser name)
    = Replied state' (registered_reply name (incr (nextUserID state)))
    ∧ getUsername state' (incr (nextUserID state)) = name
    ∧ (∀ id, id ≠ incr (nextUserID state) → getUsername state' id = getUsername state id)
    ∧ (∀ ord', Receive ord' state' (ViewInbox (incr (nextUserID state)))
               = Replied state' inbox_empty_reply)
    ∧ (∀ ord' pid, Receive ord' state' (LikePost pid (incr (nextUserID state)))
                   = Replied state' (liked_reply name pid))
    ∧ (∀ ord' sid content, ∃ state'',
         Receive ord' state' (SendMessage sid (incr (nextUserID state)) content)
         = Replied state'' (message_sent_reply name)
         ∧ User_Inbox <$> users state'' !! incr (nextUserID state)
           = Some [message_line (getUsername state' sid) content]).
Proof.
  eexists. rewrite RegisterUser_outcome. split; [reflexivity|].
  assert (∀ st, users st = <[incr (nextUserID state) :=
                               mkUser (incr (nextUserID state)) name []]> (users state) →
                getUsername st (incr (nextUserID state)) = name) as Hname.
  { intros st Hst. unfold getUsername. by rewrite Hst, lookup_insert_eq. }
  split_and!.
  - by apply Hname.
  - intros id Hne. unfold getUsername. cbn [users]. by rewrite lookup_insert_ne.
  - intros ord'. cbn [Receive users]. by rewrite lookup_insert_eq.
  - intros ord' pid. cbn [Receive]. by rewrite Hname.
  - intros ord' sid content. eexists. cbn [Receive users]. rewrite lookup_insert_eq.
    split; [reflexivity|]. cbn [users set_users]. by rewrite lookup_insert_eq.
Qed.

(** ** A new post and the first comment on it *)

(** X9. In a store whose posts all have IDs up to the post counter [n]
    (below the largest [int]), [CreatePost] in an existing community appends
    a post with the ID [n + 1], the given author and content and no comment
    at the end of that community's posts; every other slot, the members
    and the users stay.  A [CommentOnPost] on the ID [n + 1] then lands on
    that very post, whatever order [range] uses.  The author need not be
    registered or a member. *)
Theorem CreatePost_then_comment
    (ord ord' : list string) (state : EngineActor) (n uid uid' : Z)
    (sr content content' : string) (subreddit : Subreddit) :
  post_ids_upto state n →
  0 ≤ n < int_max →
  subreddits state !! sr = Some subreddit →
  ∃ state1,
    Receive ord state (CreatePost uid sr content)
    = Replied state1 (posted_reply (getUsername state uid) sr content)
    ∧ nextPostID state1 = n + 1
    ∧ post_at state1 sr (length (Subreddit_Posts subreddit))
      = Some (mkPost (n + 1) uid sr content [])
    ∧ (∀ sr' k, (sr', k) ≠ (sr, length (Subreddit_Posts subreddit)) →
         post_at state1 sr' k = post_at state sr' k)
    ∧ (∀ sr' u, member_of state1 sr' u = member_of state sr' u)
    ∧ users state1 = users state
    ∧ (range_order (subreddits state1) ord' →
       ∃ state2,
         Receive ord' state1 (CommentOnPost (n + 1) uid' content')
         = Replied state2 (commented_reply (getUsername state uid') (n + 1) content')
         ∧ post_at state2 sr (length (Subreddit_Posts subreddit))
           = Some (mkPost (n + 1) uid sr content
                     [comment_line (getUsername state uid') content'])).
Proof.
  intros [Hn Hids] Hrange Hsr.
  assert (incr (nextPostID state) = n + 1) as Hnew
    by (rewrite Hn; apply incr_in_range; unfold int_min; lia).
  destruct (Receive ord state (CreatePost uid sr content)) as [state1 r|] eqn:HR;
    [|by cbn [Receive] in HR; cbn [subreddits set_nextPostID] in HR; rewrite Hsr in HR].
  assert (∀ sr' k, post_at state1 sr' k
                   = if decide (sr' = sr ∧ k = length (Subreddit_Posts subreddit))
                     then Some (mkPost (n + 1) uid sr content [])
                     else post_at state sr' k) as Hat.
  { destruct (Receive_posts _ _ _ _ _ HR) as [Hsame|(u0 & sr0 & c0 & s0 & Hmsg & Hs0 & Hat)].
    - exfalso. specialize (Hsame sr (length (Subreddit_Posts subreddit))).
      cbn [Receive] in HR. cbn [subreddits set_nextPostID] in HR. rewrite Hsr in HR.
      injection HR as <- _. unfold post_at in Hsame.
      cbn [subreddits set_subreddits set_nextPostID] in Hsame.
      rewrite lookup_insert_eq, Hsr in Hsame. cbn in Hsame.
      by rewrite list_lookup_middle, lookup_ge_None_2 in Hsame.
    - injection Hmsg as <- <- <-. rewrite Hsr in Hs0. injection Hs0 as <-.
      by rewrite Hnew in Hat. }
  pose proof (Receive_nextPostID _ _ _ _ _ HR) as Hnext. cbn in Hnext.
  cbn [Receive] in HR. cbn [subreddits set_nextPostID] in HR. rewrite Hsr in HR.
  rewrite getUsername_set_subreddits, getUsername_set_nextPostID in HR.
  injection HR as Hst <-. exists state1. split; [done|].
  assert (users state1 = users state) as Hus by (by rewrite <-Hst).
  split_and!.
  - by rewrite Hnext, Hnew.
  - rewrite Hat. by rewrite decide_True.
  - intros sr' k Hne. rewrite Hat. rewrite decide_False; [done|].
    intros [-> ->]. by destruct Hne.
  - intros sr' u. unfold member_of. rewrite <-Hst. cbn [subreddits set_subreddits].
    destruct (decide (sr = sr')) as [<-|Hne]; [|by rewrite lookup_insert_ne].
    by rewrite lookup_insert_eq, Hsr.
  - done.
  - intros Hord.
    destruct (CommentOnPost_found ord' state1 sr (length (Subreddit_Posts subreddit))
                (mkPost (n + 1) uid sr content []) uid' content' Hord)
      as (sr2 & k2 & post2 & state2 & Hp2 & Hid & HR2 & Hp2' & _).
    { rewrite Hat. by rewrite decide_True. }
    cbn [Post_ID] in Hid, HR2.
    assert (getUsername state1 uid' = getUsername state uid') as Hname
      by (unfold getUsername; by rewrite Hus).
    rewrite Hname in HR2, Hp2'.
    rewrite Hat in Hp2. case_decide as Hslot.
    + destruct Hslot as [-> ->]. injection Hp2 as <-. by exists state2.
    + specialize (Hids _ _ _ Hp2). lia.
Qed.

Lemma CreatePost_then_comment_witness :
  ∃ state1 state2,
    Receive [] with_comment (CreatePost 3 "golang" "second")
    = Replied state1 (posted_reply "User3" "golang" "second")
    ∧ Receive ["golang"] state1 (CommentOnPost 2 1 "welcome")
      = Replied state2 (commented_reply "alice" 2 "welcome")
    ∧ post_at state2 "golang" 1
      = Some (mkPost 2 3 "golang" "second" ["User 'alice': welcome"]).
Proof.
  destruct (CreatePost_then_comment [] ["golang"] with_comment 1 3 1
              "golang" "second" "welcome" (golang [hello ["User 'bob': nice"]]))
    as (state1 & HR & _ & _ & _ & _ & _ & Hcomment).
  - split; [reflexivity|]. intros sr k post Hpost.
    apply post_at_Some in Hpost as (subreddit & Hsr & Hk).
    unfold with_comment in Hsr. cbn [subreddits] in Hsr.
    apply lookup_singleton_Some in Hsr as [<- <-].
    destruct k as [|[|k]]; cbn in Hk; [|done..]. by injection Hk as <-.
  - by vm_compute.
  - reflexivity.
  - exists state1. destruct Hcomment as (state2 & HR2 & Hp2).
    + vm_compute in HR. injection HR as <-. unfold range_order. by vm_compute.
    + exists state2. split; [exact HR|]. split; [exact HR2|exact Hp2].
Defined.

(** ** Nothing is lost *)

Lemma post_extends_refl post : post_extends post post.
Proof. split; [done|apply grows_refl]. Qed.

Lemma post_extends_trans p1 p2 p3 :
  post_extends p1 p2 → post_extends p2 p3 → post_extends p1 p3.
Proof.
  intros [Hh1 Hg1] [Hh2 Hg2]. split; [congruence|by eapply grows_trans].
Qed.

Lemma subreddit_extends_refl subreddit : subreddit_extends subreddit subreddit.
Proof. split; [done|]. intros k post Hk. exists post. split; [done|apply post_extends_refl]. Qed.

Lemma subreddit_extends_trans s1 s2 s3 :
  subreddit_extends s1 s2 → subreddit_extends s2 s3 → subreddit_extends s1 s3.
Proof.
  intros [Hn1 Hp1] [Hn2 Hp2]. split; [congruence|]. intros k post Hk.
  destruct (Hp1 k post Hk) as (post2 & Hk2 & He2).
  destruct (Hp2 k post2 Hk2) as (post3 & Hk3 & He3).
  exists post3. split; [done|by eapply post_extends_trans].
Qed.

Lemma user_extends_refl user : user_extends user user.
Proof. by split_and!. Qed.

Lemma user_extends_trans u1 u2 u3 :
  user_extends u1 u2 → user_extends u2 u3 → user_extends u1 u3.
Proof.
  intros (Hi1 & Hn1 & Hp1) (Hi2 & Hn2 & Hp2). split_and!; [congruence..|by etrans].
Qed.

Lemma store_extends_refl st : store_extends st st.
Proof.
  split.
  - intros id user Hu. exists user. split; [done|apply user_extends_refl].
  - intros sr s Hs. exists s. split; [done|apply subreddit_extends_refl].
Qed.

Lemma store_extends_trans st1 st2 st3 :
  store_extends st1 st2 → store_extends st2 st3 → store_extends st1 st3.
Proof.
  intros [Hu1 Hs1] [Hu2 Hs2]. split.
  - intros id user Hu. destruct (Hu1 id user Hu) as (u2 & Hl2 & He2).
    destruct (Hu2 id u2 Hl2) as (u3 & Hl3 & He3).
    exists u3. split; [done|by eapply user_extends_trans].
  - intros sr s Hs. destruct (Hs1 sr s Hs) as (s2 & Hl2 & He2).
    destruct (Hs2 sr s2 Hl2) as (s3 & Hl3 & He3).
    exists s3. split; [done|by eapply subreddit_extends_trans].
Qed.

(** One request loses nothing, provided the id a registration would take is
    free. *)
Lemma Receive_store_extends ord st msg st' r :
  users st !! incr (nextUserID st) = None →
  Receive ord st msg = Replied st' r →
  store_extends st st'.
Proof.
  intros Hfresh HR. split.
  - intros id user Hu.
    destruct (Receive_users _ _ _ _ _ HR)
      as [Heq|[(name & _ & Heq)|(rid & u & line & Hrid & Heq)]]; rewrite Heq.
    + exists user. split; [done|apply user_extends_refl].
    + exists user. split; [|apply user_extends_refl].
      rewrite lookup_insert_ne; [done|]. intros <-. congruence.
    + destruct (decide (rid = id)) as [<-|Hne].
      * rewrite lookup_insert_eq. eexists. split; [done|].
        assert (u = user) as -> by congruence.
        split_and!; [done..|]. cbn. by apply prefix_app_r.
      * rewrite lookup_insert_ne by done. exists user.
        split; [done|apply user_extends_refl].
  - intros sr subreddit Hsr.
    destruct (Receive_subreddits _ _ _ _ _ HR)
      as [Heq|[(sr0 & Hnone & Heq)|[(sr0 & s & members & Hs & Heq)
         |[(uid & sr0 & content & s & _ & Hs & Heq)
          |(sr0 & s & k0 & p & cs' & Hs & Hk0 & Hgrow & Heq)]]]]; rewrite Heq.
    + exists subreddit. split; [done|apply subreddit_extends_refl].
    + exists subreddit. split; [|apply subreddit_extends_refl].
      rewrite lookup_insert_ne; [done|]. intros <-. congruence.
    + destruct (decide (sr0 = sr)) as [<-|Hne].
      * rewrite lookup_insert_eq. eexists. split; [done|].
        assert (s = subreddit) as -> by congruence.
        split; [done|]. intros k post Hk. exists post.
        split; [done|apply post_extends_refl].
      * rewrite lookup_insert_ne by done. exists subreddit.
        split; [done|apply subreddit_extends_refl].
    + destruct (decide (sr0 = sr)) as [<-|Hne].
      * rewrite lookup_insert_eq. eexists. split; [done|].
        assert (s = subreddit) as -> by congruence.
        split; [done|]. intros k post Hk. exists post.
        split; [by apply lookup_app_l_Some|apply post_extends_refl].
      * rewrite lookup_insert_ne by done. exists subreddit.
        split; [done|apply subreddit_extends_refl].
    + destruct (decide (sr0 = sr)) as [<-|Hne].
      * rewrite lookup_insert_eq. eexists. split; [done|].
        assert (s = subreddit) as -> by congruence.
        split; [done|]. intros k post Hk. cbn [Subreddit_Posts set_Posts].
        destruct (decide (k0 = k)) as [<-|Hk'].
        -- rewrite list_lookup_insert_eq by (by eapply lookup_lt_Some).
           eexists. split; [done|]. assert (p = post) as -> by congruence.
           by split.
        -- rewrite list_lookup_insert_ne by done. exists post.
           split; [done|apply post_extends_refl].
      * rewrite lookup_insert_ne by done. exists subreddit.
        split; [done|apply subreddit_extends_refl].
Qed.

Lemma ids_upto_fresh st k :
  ids_upto st k → 0 ≤ k ≤ int_max → users st !! incr (nextUserID st) = None.
Proof.
  intros [Hn Hk] Hr. apply eq_None_not_Some. rewrite Hk, Hn.
  destruct (decide (k = int_max)) as [->|Hne].
  - vm_compute. by intros [? _].
  - rewrite incr_in_range by (unfold int_min; lia). lia.
Qed.

Lemma run_store_extends reqs : ∀ st st' k,
  ids_upto st k → 0 ≤ k → k + registrations reqs ≤ int_max →
  run st reqs = Some st' →
  store_extends st st'.
Proof.
  induction reqs as [|[ord msg] reqs IH]; intros st st' k Hinv H0 Hmax Hrun.
  - cbn in Hrun. simplify_eq. apply store_extends_refl.
  - rewrite registrations_cons in Hmax. cbn [run] in Hrun.
    destruct (Receive ord st msg) as [st1 r|] eqn:HR; [|done].
    pose proof (registrations_nonneg reqs).
    pose proof (registrations_nonneg [(ord, msg)]).
    eapply store_extends_trans.
    + eapply Receive_store_extends; [|done]. eapply ids_upto_fresh; [done|lia].
    + eapply (IH st1 st' (k + registrations [(ord, msg)])); [|lia|lia|done].
      eapply Receive_ids_upto; [done|lia|lia|done].
Qed.

(** X13. Along a run from the store [main] starts with (with at most
    [2^63-1] registrations), nothing is lost or rewritten: a user stored at
    some point of the run is still stored under the same id later, with the
    same [ID] and name and with an inbox that has the old inbox as a prefix;
    a community is still there with the same name; each of its posts is
    still at the same slot with the same ID, author, community and
    content; and each comment is still at its position with the old text
    as a prefix. *)
Theorem nothing_is_lost
    (reqs1 reqs2 : list (list string * Msg)) (state1 state2 : EngineActor) :
  run initial reqs1 = Some state1 →
  run state1 reqs2 = Some state2 →
  registrations reqs1 + registrations reqs2 ≤ int_max →
  store_extends state1 state2.
Proof.
  intros Hrun1 Hrun2 Hmax.
  pose proof (registrations_nonneg reqs1). pose proof (registrations_nonneg reqs2).
  eapply (run_store_extends reqs2 state1 state2 (registrations reqs1)); [|lia|lia|done].
  rewrite <-(Z.add_0_l (registrations reqs1)).
  eapply run_ids_upto; [apply initial_ids_upto|done|lia|done].
Qed.

Lemma nothing_is_lost_witness : store_extends with_post with_reply.
Proof.
  apply (nothing_is_lost
           [([], RegisterUser "alice"); ([], RegisterUser "bob");
            ([], CreateSubreddit 1 "golang"); ([], CreatePost 1 "golang" "hello")]
           [(["golang"], CommentOnPost 1 2 "nice");
            (["golang"], ReplyToComment 1 1 2 "thanks")]).
  - vm_compute. reflexivity.
  - vm_compute. reflexivity.
  - vm_compute. discriminate.
Defined.

(** ** Replies stack up *)

Lemma range_order_insert subs sr subreddit subreddit' ord :
  subs !! sr = Some subreddit →
  range_order subs ord →
  range_order (<[sr := subreddit']> subs) ord.
Proof.
  unfold range_order. intros Hsr ->.
  rewrite <-insert_delete_eq.
  rewrite map_to_list_insert by apply lookup_delete_eq.
  rewrite <-(map_to_list_delete subs sr subreddit Hsr). done.
Qed.

(** X14. Two replies to the same comment of a post that is the only one
    with its ID, by registered users, both succeed, and the comment then
    reads as the old text followed by the first and then the second reply
    line; the post keeps its slot and its number of comments. *)
Theorem ReplyToComment_twice
    (ord1 ord2 : list string) (state : EngineActor) (sr : string) (k : nat) (post : Post)
    (cid uid1 uid2 : Z) (content1 content2 : string) (user1 user2 : User) :
  range_order (subreddits state) ord1 →
  range_order (subreddits state) ord2 →
  post_at state sr k = Some post →
  only_post_with_id state (Post_ID post) sr k →
  1 ≤ cid ≤ len (Post_Comments post) →
  users state !! uid1 = Some user1 →
  users state !! uid2 = Some user2 →
  ∃ comment state1 state2 post2,
    Post_Comments post !! Z.to_nat (cid - 1) = Some comment
    ∧ Receive ord1 state (ReplyToComment (Post_ID post) cid uid1 content1)
      = Replied state1
          (replied_reply (User_Username user1) cid (Post_ID post) content1)
    ∧ Receive ord2 state1 (ReplyToComment (Post_ID post) cid uid2 content2)
      = Replied state2
          (replied_reply (User_Username user2) cid (Post_ID post) content2)
    ∧ post_at state2 sr k = Some post2
    ∧ Post_Comments post2 !! Z.to_nat (cid - 1)
      = Some (comment +:+ reply_line (User_Username user1) content1
                      +:+ reply_line (User_Username user2) content2)
    ∧ length (Post_Comments post2) = length (Post_Comments post).
Proof.
  intros Ho1 Ho2 Hpost Huniq Hcid Hu1 Hu2.
  apply post_at_Some in Hpost as (subreddit & Hsr & Hk).
  destruct (lookup_lt_is_Some_2 (Post_Comments post) (Z.to_nat (cid - 1)))
    as [comment Hc]; [unfold len in Hcid; lia|].
  pose proof (lookup_lt_Some _ _ _ Hk) as Hlt.
  set (post1 := with_reply_line (User_Username user1) content1 cid post).
  set (posts1 := <[k := post1]> (Subreddit_Posts subreddit)).
  set (state1 := set_subreddits (<[sr := set_Posts posts1 subreddit]> (subreddits state))
                   state).
  assert (Receive ord1 state (ReplyToComment (Post_ID post) cid uid1 content1)
          = Replied state1 (replied_reply (User_Username user1) cid (Post_ID post) content1))
    as HR1 by (by eapply ReplyToComment_Hit).
  assert (Receive ord2 state1 (ReplyToComment (Post_ID post1) cid uid2 content2)
          = Replied
              (set_subreddits
                 (<[sr := set_Posts
                            (<[k := with_reply_line (User_Username user2) content2 cid post1]>
                               posts1) (set_Posts posts1 subreddit)]> (subreddits state1))
                 state1)
              (replied_reply (User_Username user2) cid (Post_ID post1) content2)) as HR2.
  { apply ReplyToComment_Hit.
    - by eapply range_order_insert.
    - apply lookup_insert_eq.
    - by apply list_lookup_insert_eq.
    - intros sr' k' q Hq Hid. unfold state1 in Hq. rewrite post_at_insert in Hq.
      case_decide as Heq.
      + subst sr'. split; [done|]. destruct (decide (k' = k)) as [|Hne]; [done|].
        unfold posts1 in Hq. rewrite list_lookup_insert_ne in Hq by done.
        eapply (Huniq sr k' q); [|done]. apply post_at_Some. eauto.
      + by eapply (Huniq sr' k' q).
    - unfold post1, with_reply_line, len. cbn [Post_Comments set_Comments].
      rewrite length_alter. done.
    - done. }
  exists comment, state1. do 2 eexists. split; [done|]. split; [done|].
  split; [exact HR2|].
  rewrite post_at_insert, decide_True by done.
  split; [apply list_lookup_insert_eq; unfold posts1; by rewrite length_insert|].
  unfold post1, with_reply_line. cbn [Post_Comments set_Comments]. split.
  - rewrite !list_lookup_alter_eq, Hc. cbn. by rewrite string_app_assoc.
  - by rewrite !length_alter.
Qed.

Lemma ReplyToComment_twice_witness :
  ∃ state1 state2 post2,
    Receive ["golang"] with_comment (ReplyToComment 1 1 2 "thanks")
    = Replied state1 (replied_reply "bob" 1 1 "thanks")
    ∧ Receive ["golang"] state1 (ReplyToComment 1 1 1 "welcome")
      = Replied state2 (replied_reply "alice" 1 1 "welcome")
    ∧ post_at state2 "golang" 0 = Some post2
    ∧ Post_Comments post2
      = ["User 'bob': nice" +:+ reply_line "bob" "thanks" +:+ reply_line "alice" "welcome"].
Proof.
  destruct (ReplyToComment_twice ["golang"] ["golang"] with_comment "golang" 0%nat
              (hello ["User 'bob': nice"]) 1 2 1 "thanks" "welcome" bob alice)
    as (comment & state1 & state2 & post2 & Hc & HR1 & HR2 & Hp2 & Hc2 & Hlen).
  - by vm_compute.
  - by vm_compute.
  - reflexivity.
  - intros sr' k' post Hpost _. apply post_at_Some in Hpost as (subreddit & Hsr & Hk).
    unfold with_comment in Hsr. cbn [subreddits] in Hsr.
    apply lookup_singleton_Some in Hsr as [<- <-].
    split; [done|]. destruct k' as [|[|k']]; done.
  - by vm_compute.
  - reflexivity.
  - reflexivity.
  - exists state1, state2, post2. cbn in Hc. injection Hc as <-.
    split_and!; [exact HR1|exact HR2|exact Hp2|].
    destruct (Post_Comments post2) as [|c [|c' cs]]; [done| |done].
    cbn in Hc2. by injection Hc2 as ->.
Defined.
